(** * otio-hls: the HLS playlist codec

    A shallow embedding of the Go package [hls] (hls.go, decoder.go,
    encoder.go): the byterange codec, the attribute-list parser, the line
    classifier, the decode state machine and the master-playlist encoder,
    followed by the properties of the specification that concern them.

    Conventions.
    - A Go [string] is a sequence of bytes: Rocq's [string] of [ascii].
    - Go's [int] and [int64] are 64 bits wide: they are integers of [Z]
      kept in range by [wrap64], written where the source does arithmetic.
    - [map[string]T] is a [gmap string T]; the iteration order of a Go map
      is unspecified, so the encoder is parametric in it.
    - [interface{}] values are the tagged union [Any].
    - [float64] is Rocq's primitive binary64 [float]. *)

From Stdlib Require Import ZArith String Ascii List Lia PrimFloat.
From stdpp Require Import base option list gmap strings.
Import ListNotations.

Set Warnings "-register-all".
Local Open Scope string_scope.
Local Open Scope Z_scope.

(** ** Bytes *)

Definition byte_of (n : N) : ascii := ascii_of_N n.
Definition code (c : ascii) : N := N_of_ascii c.

Definition char_in (lo hi : N) (c : ascii) : bool :=
  ((lo <=? code c) && (code c <=? hi))%N.

Definition quote : ascii := byte_of 34.
Definition LF : ascii := byte_of 10.
Definition CR : ascii := byte_of 13.

(** [\d], [\w], [[0-9A-Fa-f]] and [[A-Z0-9-]] of Go's regexp syntax. *)
Definition isDigit (c : ascii) : bool := char_in 48 57 c.
Definition isUpper (c : ascii) : bool := char_in 65 90 c.
Definition isLower (c : ascii) : bool := char_in 97 122 c.
Definition isWord (c : ascii) : bool :=
  isDigit c || isUpper c || isLower c || (code c =? 95)%N.
Definition isHex (c : ascii) : bool :=
  isDigit c || char_in 65 70 c || char_in 97 102 c.
Definition isEnumChar (c : ascii) : bool :=
  isUpper c || isDigit c || (code c =? 45)%N.

(** ** Package strings of the Go library *)

Module GoStrings.

(** The six ASCII bytes of [asciiSpace]: tab, LF, VT, FF, CR, space. *)
Definition asciiSpace (c : ascii) : bool :=
  char_in 9 13 c || (code c =? 32)%N.

(** The other code points of [unicode.IsSpace], by their UTF-8 bytes:
    U+0085 and U+00A0 take two bytes, U+1680, U+2000..U+200A, U+2028,
    U+2029, U+202F, U+205F and U+3000 take three. *)
Definition space2 (b1 b2 : ascii) : bool :=
  (code b1 =? 194)%N && ((code b2 =? 133)%N || (code b2 =? 160)%N).

Definition space3 (b1 b2 b3 : ascii) : bool :=
  ((code b1 =? 225)%N && (code b2 =? 154)%N && (code b3 =? 128)%N)
  || ((code b1 =? 226)%N && (code b2 =? 128)%N
      && (char_in 128 138 b3 || (code b3 =? 168)%N || (code b3 =? 169)%N
          || (code b3 =? 175)%N))
  || ((code b1 =? 226)%N && (code b2 =? 129)%N && (code b3 =? 159)%N)
  || ((code b1 =? 227)%N && (code b2 =? 128)%N && (code b3 =? 128)%N).

(** [TrimLeftFunc(s, unicode.IsSpace)]. *)
Fixpoint TrimLeftSpace (s : string) : string :=
  match s with
  | EmptyString => EmptyString
  | String b1 t1 =>
      if asciiSpace b1 then TrimLeftSpace t1
      else match t1 with
           | String b2 t2 =>
               if space2 b1 b2 then TrimLeftSpace t2
               else match t2 with
                    | String b3 t3 =>
                        if space3 b1 b2 b3 then TrimLeftSpace t3 else s
                    | EmptyString => s
                    end
           | EmptyString => s
           end
  end.

(** The same scan from the end, on the reversed bytes: the last rune of
    a string is a space exactly when its bytes are a suffix. *)
Fixpoint trimRevSpace (r : string) : string :=
  match r with
  | EmptyString => EmptyString
  | String b1 t1 =>
      if asciiSpace b1 then trimRevSpace t1
      else match t1 with
           | String b2 t2 =>
               if space2 b2 b1 then trimRevSpace t2
               else match t2 with
                    | String b3 t3 =>
                        if space3 b3 b2 b1 then trimRevSpace t3 else r
                    | EmptyString => r
                    end
           | EmptyString => r
           end
  end.

Definition TrimRightSpace (s : string) : string :=
  String.rev (trimRevSpace (String.rev s)).

(** [strings.TrimSpace]: its ASCII fast path and its fall-back to
    [TrimFunc] compute the same slice. *)
Definition TrimSpace (s : string) : string :=
  TrimRightSpace (TrimLeftSpace s).

(** [strings.Cut(s, sep)] for a one-byte separator. *)
Fixpoint Cut (s : string) (sep : ascii) : option (string * string) :=
  match s with
  | EmptyString => None
  | String c t =>
      if Ascii.eqb c sep then Some (EmptyString, t)
      else match Cut t sep with
           | Some (a, b) => Some (String c a, b)
           | None => None
           end
  end.

(** [strings.Split(s, sep)] for a one-byte separator: every call of the
    package passes one.  The result is never empty. *)
Fixpoint Split (s : string) (sep : ascii) : list string :=
  match s with
  | EmptyString => [EmptyString]
  | String c t =>
      if Ascii.eqb c sep then EmptyString :: Split t sep
      else match Split t sep with
           | h :: r => String c h :: r
           | [] => [String c EmptyString]
           end
  end.

(** [strings.SplitN(s, sep, n)] for [n >= 0]. *)
Fixpoint SplitN (s : string) (sep : ascii) (n : nat) : list string :=
  match n with
  | O => []
  | S O => [s]
  | S n' =>
      match Cut s sep with
      | Some (a, b) => a :: SplitN b sep n'
      | None => [s]
      end
  end.

(** [strings.Index(s, sep)] for a one-byte separator: -1 when absent. *)
Fixpoint Index (s : string) (sep : ascii) : Z :=
  match s with
  | EmptyString => -1
  | String c t =>
      if Ascii.eqb c sep then 0
      else let i := Index t sep in if i <? 0 then -1 else i + 1
  end.

Definition Contains (s : string) (sep : ascii) : bool := 0 <=? Index s sep.

(** [strings.TrimPrefix(s, prefix)] for a one-byte prefix. *)
Definition TrimPrefix (s : string) (p : ascii) : string :=
  match s with
  | String c t => if Ascii.eqb c p then t else s
  | EmptyString => s
  end.

(** [s[n:]] *)
Fixpoint drop (n : nat) (s : string) : string :=
  match n, s with
  | O, _ => s
  | S n', String _ t => drop n' t
  | S _, EmptyString => EmptyString
  end.

Definition Join (parts : list string) (sep : string) : string :=
  String.concat sep parts.

End GoStrings.

(** ** Machine integers

    [int] and [int64] hold the integers of [minInt64 .. maxInt64];
    arithmetic on them wraps around. *)

Definition maxInt64 : Z := 2 ^ 63 - 1.
Definition minInt64 : Z := - 2 ^ 63.
Definition maxUint64 : Z := 2 ^ 64 - 1.

Definition wrap64 (z : Z) : Z := (z + 2 ^ 63) mod 2 ^ 64 - 2 ^ 63.

Definition add64 (a b : Z) : Z := wrap64 (a + b).

Definition in_int64 (z : Z) : Prop := minInt64 <= z <= maxInt64.

(** ** Package strconv of the Go library *)

Module Strconv.

(** The two causes of a [*strconv.NumError]. *)
Inductive NumError : Set :=
  | ErrSyntax
  | ErrRange.

(** The digit loop of [ParseUint(s, 10, 64)], [n] being the value read
    so far: a byte that is not a decimal digit is a syntax error, a
    value above [maxUint64] a range error, each returned at once. *)
Fixpoint parseDigits (s : string) (n : Z) : Z * option NumError :=
  match s with
  | EmptyString => (n, None)
  | String c t =>
      if isDigit c then
        let d := Z.of_N (code c) - 48 in
        if maxUint64 / 10 + 1 <=? n then (maxUint64, Some ErrRange)
        else
          let n1 := n * 10 + d in
          if maxUint64 <? n1 then (maxUint64, Some ErrRange)
          else parseDigits t n1
      else (0, Some ErrSyntax)
  end.

Definition ParseUint (s : string) : Z * option NumError :=
  match s with
  | EmptyString => (0, Some ErrSyntax)
  | _ => parseDigits s 0
  end.

(** [ParseInt(s, 10, 64)]: an optional sign, then [ParseUint]. *)
Definition ParseInt (s : string) : Z * option NumError :=
  match s with
  | EmptyString => (0, Some ErrSyntax)
  | String c t =>
      let neg := Ascii.eqb c "-" in
      let s' := if Ascii.eqb c "+" || neg then t else s in
      match ParseUint s' with
      | (_, Some ErrSyntax) => (0, Some ErrSyntax)
      | (un, _) =>
          let cutoff := 2 ^ 63 in
          if negb neg && (cutoff <=? un) then (cutoff - 1, Some ErrRange)
          else if neg && (cutoff <? un) then (- cutoff, Some ErrRange)
          else (if neg then - un else un, None)
      end
  end.

(** [Atoi(s)] is [ParseInt(s, 10, 0)] with [int] 64 bits wide (its fast
    path for short strings returns the same value and error). *)
Definition Atoi (s : string) : Z * option NumError := ParseInt s.

Definition digitChar (d : Z) : ascii := byte_of (Z.to_N (48 + d)).

(** The decimal digits of [u >= 0], most significant first. *)
Fixpoint formatBits (fuel : nat) (u : Z) (acc : string) : string :=
  match fuel with
  | O => acc
  | S f =>
      if u <? 10 then String (digitChar u) acc
      else formatBits f (u / 10) (String (digitChar (u mod 10)) acc)
  end.

Definition FormatUint (u : Z) : string :=
  formatBits (S (Z.to_nat (Z.log2 u))) u EmptyString.

(** [FormatInt(i, 10)], which is also [fmt.Sprintf("%d", i)]. *)
Definition FormatInt (i : Z) : string :=
  if i <? 0 then String "-" (FormatUint (- i)) else FormatUint i.

End Strconv.

(** ** Package bufio of the Go library: the line scanner *)

Module Bufio.

(** [bufio.MaxScanTokenSize] *)
Definition MaxScanTokenSize : Z := 64 * 1024.

(** [dropCR]: a line loses one trailing carriage return. *)
Definition dropCR (rline : string) : string :=
  match rline with
  | String c t => if Ascii.eqb c CR then t else rline
  | EmptyString => rline
  end.

(** What a [Scanner] sees of an [io.Reader] that fails with no error but
    [io.EOF]: the bytes it yields, and whether the [Read] call that yields
    the last of them returns [io.EOF] together with them ([eofWithData])
    or only the next call does. *)
Record Reader : Set := mkReader { data : string; eofWithData : bool }.

(** A [Scanner] with the [ScanLines] split function and the default
    buffer, run to its end over the bytes of the reader: the tokens of
    the successive [Scan] calls, and whether [Err()] is [ErrTooLong]
    afterwards.  [rline] is the current line, reversed, and [n] its
    length.  A line that fills the buffer of [MaxScanTokenSize] bytes
    before its newline stops the scan, but for one case: [Scan] calls the
    split function before it looks whether the buffer is full, so that a
    last line without newline that fills the buffer exactly is a token
    when the reader has returned [io.EOF] with its last bytes. *)
Fixpoint scan (eof : bool) (s : string) (rline : string) (n : Z)
    : list string * bool :=
  match s with
  | EmptyString =>
      (match rline with
       | EmptyString => []
       | _ => [String.rev (dropCR rline)]
       end, false)
  | String c t =>
      if Ascii.eqb c LF then
        let (toks, e) := scan eof t EmptyString 0 in
        (String.rev (dropCR rline) :: toks, e)
      else if MaxScanTokenSize <=? n + 1 then
        match t with
        | EmptyString =>
            if eof then ([String.rev (dropCR (String c rline))], false)
            else ([], true)
        | String _ _ => ([], true)
        end
      else scan eof t (String c rline) (n + 1)
  end.

Definition ScanLines (r : Reader) : list string * bool :=
  scan (eofWithData r) (data r) EmptyString 0.

End Bufio.

(** [strings.NewReader]: the [Read] method of a [strings.Reader] returns
    its last bytes with a nil error, and [io.EOF] on the next call. *)
Definition NewReader (s : string) : Bufio.Reader :=
  {| Bufio.data := s; Bufio.eofWithData := false |}.

(** ** Errors of the package

    Each constructor is one [fmt.Errorf] of the source. *)

Inductive error : Type :=
  | ErrByterangeFormat (s : string)
      (** "invalid byterange format: %s" *)
  | ErrByterangeCount (e : Strconv.NumError)
      (** "invalid byterange count: %w" *)
  | ErrByterangeOffset (e : Strconv.NumError)
      (** "invalid byterange offset: %w" *)
  | ErrAttributeNotFound (key : string)
      (** "attribute %s not found" *)
  | ErrNum (e : Strconv.NumError)
      (** the error of [strconv.Atoi], returned as it is *)
  | ErrReadingPlaylist
      (** "error reading playlist: %w", on [bufio.ErrTooLong] *)
  | ErrNotValidPlaylist
      (** "not a valid M3U8 playlist" *)
  | ErrUnsupportedPlaylistType
      (** "unsupported playlist type (master playlists not yet
          implemented)" *).

Inductive result (A : Type) : Type :=
  | Ok (v : A)
  | Err (e : error).
Arguments Ok {A} v.
Arguments Err {A} e.

(** ** hls.go: byteranges *)

Record Byterange : Set := mkByterange { Count : Z; Offset : Z }.

(** [NewByterangeFromString] *)
Definition NewByterangeFromString (s : string) : result Byterange :=
  let parts := GoStrings.Split s "@" in
  if (length parts =? 0)%nat || (2 <? length parts)%nat then
    Err (ErrByterangeFormat s)
  else
    match Strconv.ParseInt (nth 0 parts EmptyString) with
    | (_, Some e) => Err (ErrByterangeCount e)
    | (count, None) =>
        if (length parts =? 2)%nat then
          match Strconv.ParseInt (nth 1 parts EmptyString) with
          | (_, Some e) => Err (ErrByterangeOffset e)
          | (offset, None) => Ok {| Count := count; Offset := offset |}
          end
        else Ok {| Count := count; Offset := 0 |}
    end.

(** The [String] method of [Byterange]. *)
Definition Byterange_String (b : Byterange) : string :=
  if 0 <? Offset b then
    Strconv.FormatInt (Count b) +:+ "@" +:+ Strconv.FormatInt (Offset b)
  else Strconv.FormatInt (Count b).

(** ** hls.go: attribute lists *)

(** The longest prefix of [s] whose bytes satisfy [p], and the rest: a
    greedy [[class]*] of a regular expression. *)
Fixpoint span (p : ascii -> bool) (s : string) : string * string :=
  match s with
  | EmptyString => (EmptyString, EmptyString)
  | String c t =>
      if p c then let (a, b) := span p t in (String c a, b)
      else (EmptyString, s)
  end.

(** A greedy [[class]+]: [span] with a match that is not empty. *)
Definition span1 (p : ascii -> bool) (s : string) : option (string * string) :=
  match span p s with
  | (EmptyString, _) => None
  | r => Some r
  end.

(** [(\w+)=] matched at the first byte: the key and the rest. *)
Definition matchKey (s : string) : option (string * string) :=
  match span1 isWord s with
  | Some (k, String c r) => if Ascii.eqb c "=" then Some (k, r) else None
  | _ => None
  end.

(** The five patterns, each matched at the first byte of [s] as
    [FindStringIndex] with [loc[0] == 0] does; the result is the key
    [match[1]], the value [match[2]] and [s[loc[1]:]]. *)

(** [reQuoted]: a key, [=], a double quote, the longest run of bytes that
    are not a double quote (the value), a double quote. *)
Definition reQuoted (s : string) : option (string * string * string) :=
  match matchKey s with
  | Some (k, String q r) =>
      if Ascii.eqb q quote then
        match span (fun c => negb (Ascii.eqb c quote)) r with
        | (v, String _ rest) => Some (k, v, rest)
        | (_, EmptyString) => None
        end
      else None
  | _ => None
  end.

(** [reResolution]: (\w+)=(\d+x\d+) *)
Definition reResolution (s : string) : option (string * string * string) :=
  match matchKey s with
  | Some (k, r) =>
      match span1 isDigit r with
      | Some (w, String x r') =>
          if Ascii.eqb x "x" then
            match span1 isDigit r' with
            | Some (h, rest) => Some (k, w +:+ "x" +:+ h, rest)
            | None => None
            end
          else None
      | _ => None
      end
  | None => None
  end.

(** [reHex]: (\w+)=(0x[0-9A-Fa-f]+) *)
Definition reHex (s : string) : option (string * string * string) :=
  match matchKey s with
  | Some (k, String z (String x r)) =>
      if Ascii.eqb z "0" && Ascii.eqb x "x" then
        match span1 isHex r with
        | Some (h, rest) => Some (k, "0x" +:+ h, rest)
        | None => None
        end
      else None
  | _ => None
  end.

(** [reFloat]: (\w+)=(\d+(?:\.\d+)?) *)
Definition reFloat (s : string) : option (string * string * string) :=
  match matchKey s with
  | Some (k, r) =>
      match span1 isDigit r with
      | Some (i, rest) =>
          match rest with
          | String dot r' =>
              if Ascii.eqb dot "." then
                match span1 isDigit r' with
                | Some (f, rest') => Some (k, i +:+ "." +:+ f, rest')
                | None => Some (k, i, rest)
                end
              else Some (k, i, rest)
          | EmptyString => Some (k, i, rest)
          end
      | None => None
      end
  | None => None
  end.

(** [reEnum]: (\w+)=([A-Z0-9-]+) *)
Definition reEnum (s : string) : option (string * string * string) :=
  match matchKey s with
  | Some (k, r) =>
      match span1 isEnumChar r with
      | Some (v, rest) => Some (k, v, rest)
      | None => None
      end
  | None => None
  end.

(** "Try each pattern in order": the first that matches at the start. *)
Fixpoint firstMatch (res : list (string -> option (string * string * string)))
    (s : string) : option (string * string * string) :=
  match res with
  | [] => None
  | re :: res' =>
      match re s with
      | Some m => Some m
      | None => firstMatch res' s
      end
  end.

Definition patterns : list (string -> option (string * string * string)) :=
  [reQuoted; reResolution; reHex; reFloat; reEnum].

(** The loop of [ParseAttributeList]; every turn but the last shortens
    [remaining], so [fuel] above its length is never used up. *)
Fixpoint parseAttrs (fuel : nat) (remaining : string)
    (attrs : gmap string string) : gmap string string :=
  match fuel with
  | O => attrs
  | S fuel' =>
      match remaining with
      | EmptyString => attrs
      | _ =>
          let remaining := GoStrings.TrimSpace remaining in
          match remaining with
          | EmptyString => attrs
          | _ =>
              match firstMatch patterns remaining with
              | Some (k, v, rest) =>
                  parseAttrs fuel' (GoStrings.TrimPrefix rest ",") (<[k:=v]> attrs)
              | None =>
                  let idx := GoStrings.Index remaining "," in
                  if 0 <? idx then
                    parseAttrs fuel' (GoStrings.drop (Z.to_nat (idx + 1)) remaining) attrs
                  else attrs
              end
          end
      end
  end.

Definition ParseAttributeList (s : string) : gmap string string :=
  parseAttrs (S (String.length s)) s ∅.

(** One turn of that loop, from its test to the end of its body: the loop
    ends with the attributes read ([inl]: [remaining] is empty, or is so
    once trimmed, or nothing matches and no comma follows), or goes on
    with what is left of [remaining] ([inr]). *)
Definition attrLoopTurn (remaining : string) (attrs : gmap string string)
    : gmap string string + string * gmap string string :=
  match remaining with
  | EmptyString => inl attrs
  | _ =>
      let remaining := GoStrings.TrimSpace remaining in
      match remaining with
      | EmptyString => inl attrs
      | _ =>
          match firstMatch patterns remaining with
          | Some (k, v, rest) =>
              inr (GoStrings.TrimPrefix rest ",", <[k:=v]> attrs)
          | None =>
              let idx := GoStrings.Index remaining "," in
              if 0 <? idx then
                inr (GoStrings.drop (Z.to_nat (idx + 1)) remaining, attrs)
              else inl attrs
          end
      end
  end.

(** The loop run for [turns] turns at most: the attributes it returns, or
    [None] when it has not ended by then. *)
Fixpoint attrLoop (turns : nat) (remaining : string)
    (attrs : gmap string string) : option (gmap string string) :=
  match turns with
  | O => None
  | S turns' =>
      match attrLoopTurn remaining attrs with
      | inl result => Some result
      | inr (remaining', attrs') => attrLoop turns' remaining' attrs'
      end
  end.

(** [AttributeList.Get]: the zero value of a missing key is the empty
    string. *)
Definition Get (a : gmap string string) (key : string) : string :=
  default EmptyString (a !! key).

(** [AttributeList.GetInt] *)
Definition GetInt (a : gmap string string) (key : string) : Z * option error :=
  let val := Get a key in
  match val with
  | EmptyString => (0, Some (ErrAttributeNotFound key))
  | _ =>
      match Strconv.Atoi val with
      | (n, None) => (n, None)
      | (n, Some e) => (n, Some (ErrNum e))
      end
  end.

(** [needsQuoting]: a byte outside [A-Za-z0-9.x-] (every byte of a rune
    that is not ASCII is one), or a comma or a slash. *)
Fixpoint allPlain (s : string) : bool :=
  match s with
  | EmptyString => true
  | String c t =>
      (isUpper c || isLower c || isDigit c || Ascii.eqb c "."
       || Ascii.eqb c "x" || Ascii.eqb c "-") && allPlain t
  end.

Definition needsQuoting (s : string) : bool :=
  negb (allPlain s) || GoStrings.Contains s "," || GoStrings.Contains s "/".

(** One part of [AttributeList.String]. *)
Definition formatAttr (kv : string * string) : string :=
  let (k, v) := kv in
  if needsQuoting v then
    k +:+ "=" +:+ String quote v +:+ String quote EmptyString
  else k +:+ "=" +:+ v.

(** ** hls.go: playlist entries *)

Inductive EntryType : Set :=
  | EntryTypeComment
  | EntryTypeTag
  | EntryTypeURI.

Record PlaylistEntry : Set := mkEntry {
  Type_ : EntryType;
  Tag : string;
  Value : string;
  URI : string
}.

Definition noLF (s : string) : bool := negb (GoStrings.Contains s LF).

(** [reTag]: [#], then the name, [EXT] and the longest run of bytes that
    are not a colon, then an optional colon, then the value, which must
    reach the end of the text: [.] does unless a newline is in the way. *)
Definition reTag (line : string) : option (string * string) :=
  match line with
  | String "#" (String "E" (String "X" (String "T" r))) =>
      match span (fun c => negb (Ascii.eqb c ":")) r with
      | (name, EmptyString) => Some ("EXT" +:+ name, EmptyString)
      | (name, String _ v) =>
          if noLF v then Some ("EXT" +:+ name, v) else None
      end
  | _ => None
  end.

(** [reComment]: [#], then the text up to the end, without a newline. *)
Definition reComment (line : string) : option string :=
  match line with
  | String "#" r => if noLF r then Some r else None
  | _ => None
  end.

(** [ParsePlaylistEntry]; [None] is the nil entry of a blank line. *)
Definition ParsePlaylistEntry (line : string) : option PlaylistEntry :=
  let line := GoStrings.TrimSpace line in
  match line with
  | EmptyString => None
  | _ =>
      match reTag line with
      | Some (name, value) =>
          Some {| Type_ := EntryTypeTag; Tag := name; Value := value;
                  URI := EmptyString |}
      | None =>
          match reComment line with
          | Some text =>
              Some {| Type_ := EntryTypeComment; Tag := EmptyString;
                      Value := text; URI := EmptyString |}
          | None =>
              Some {| Type_ := EntryTypeURI; Tag := EmptyString;
                      Value := EmptyString; URI := line |}
          end
      end
  end.

(** The [IsTag] method of [PlaylistEntry]. *)
Definition IsTag (e : PlaylistEntry) (tagName : string) : bool :=
  match Type_ e with
  | EntryTypeTag => String.eqb (Tag e) tagName
  | _ => false
  end.

(** ** The timeline model, as the codec uses it

    The package gotio owns these objects; the codec constructs them, reads
    their names, kinds, children and metadata, and nothing else. *)

(** A value of type [interface{}], with the dynamic types that the codec
    stores or asserts. *)
Inductive Any : Type :=
  | ANil
  | ABool (b : bool)
  | AInt (n : Z)
  | AInt64 (n : Z)
  | AFloat (f : float)
  | AStr (s : string)
  | AList (l : list Any)
  | AMap (m : gmap string Any).

(** [opentime.RationalTime] and [opentime.TimeRange] *)
Record RationalTime : Set := mkRationalTime { rt_value : float; rt_rate : float }.
Record TimeRange : Set := mkTimeRange {
  start_time : RationalTime;
  duration : RationalTime
}.

Record ExternalReference : Type := mkExternalReference {
  ref_name : string;
  TargetURL : string;
  ref_metadata : gmap string Any
}.

(** The media reference of a clip: none, an external reference, or a
    reference of another kind. *)
Inductive MediaReference : Type :=
  | NoReference
  | External (ref : ExternalReference)
  | OtherReference.

Record Clip : Type := mkClip {
  clip_name : string;
  media_reference : MediaReference;
  source_range : option TimeRange;
  clip_metadata : gmap string Any
}.

(** A child of a track: a clip, or an item of another kind. *)
Inductive Item : Type :=
  | ItemClip (c : Clip)
  | ItemOther.

Inductive TrackKind : Set :=
  | TrackKindVideo
  | TrackKindAudio
  | TrackKindOther (k : string).

Record Track : Type := mkTrack {
  track_name : string;
  Kind : TrackKind;
  track_children : list Item;
  track_metadata : gmap string Any
}.

(** A child of the stack [Tracks()] of a timeline. *)
Inductive StackChild : Type :=
  | ChildTrack (t : Track)
  | ChildOther.

Record Timeline : Type := mkTimeline {
  timeline_name : string;
  Tracks : list StackChild;
  timeline_metadata : gmap string Any
}.

Definition metadataNamespace : string := "HLS".
Definition streamingMetadataNamespace : string := "streaming".

(** ** decoder.go *)

(** [parsePlaylist] over the reader [r]: the entries
    of the lines that are not blank, unless the scan failed or the first
    entry is not the EXTM3U tag. *)
Definition classify (lines : list string) : list PlaylistEntry :=
  omap ParsePlaylistEntry lines.

Definition parsePlaylist (r : Bufio.Reader) : result (list PlaylistEntry) :=
  let (lines, tooLong) := Bufio.ScanLines r in
  let entries := classify lines in
  if tooLong then Err ErrReadingPlaylist
  else
    match entries with
    | [] => Err ErrNotValidPlaylist
    | e :: _ =>
        if IsTag e "EXTM3U" then Ok entries else Err ErrNotValidPlaylist
    end.

(** [isMediaPlaylist] *)
Fixpoint isMediaPlaylist (entries : list PlaylistEntry) : bool :=
  match entries with
  | [] => false
  | entry :: rest =>
      if IsTag entry "EXTINF" then true
      else if IsTag entry "EXT-X-STREAM-INF" then false
      else isMediaPlaylist rest
  end.

Definition byterangeMetadata (b : Byterange) : gmap string Any :=
  <["byte_offset" := AInt64 (Offset b)]>
    (<["byte_count" := AInt64 (Count b)]> ∅).

Definition namespaced (ns : string) (m : gmap string Any)
    (into : gmap string Any) : gmap string Any :=
  if decide (m = ∅) then into else <[ns := AMap m]> into.

(** [createClip] *)
Definition createClip (uri : string) (dur : float) (title : string)
    (byterange : option Byterange) (mapURI : string)
    (mapByterange : option Byterange) (keyInfo programDateTime : string)
    (discontinuitySeq : Z) : Clip :=
  let name := match title with EmptyString => uri | _ => title end in
  let sourceRange :=
    if (0 <? dur)%float then
      let rate := 1%float in
      Some {| start_time := mkRationalTime 0%float rate;
              duration := mkRationalTime (dur * rate)%float rate |}
    else None in
  let streamingMetadata : gmap string Any :=
    match byterange with
    | Some b => byterangeMetadata b
    | None => ∅
    end in
  let streamingMetadata :=
    match mapURI with
    | EmptyString => streamingMetadata
    | _ =>
        let mapData : gmap string Any := <["init_uri" := AStr mapURI]> ∅ in
        let mapData :=
          match mapByterange with
          | Some mb => <["init_byterange" := AMap (byterangeMetadata mb)]> mapData
          | None => mapData
          end in
        mapData ∪ streamingMetadata
    end in
  let hlsClipMetadata : gmap string Any := ∅ in
  let hlsClipMetadata :=
    match keyInfo with
    | EmptyString => hlsClipMetadata
    | _ => <["EXT-X-KEY" := AStr keyInfo]> hlsClipMetadata
    end in
  let hlsClipMetadata :=
    match programDateTime with
    | EmptyString => hlsClipMetadata
    | _ => <["EXT-X-PROGRAM-DATE-TIME" := AStr programDateTime]> hlsClipMetadata
    end in
  let hlsClipMetadata :=
    if 0 <? discontinuitySeq then
      <["discontinuity_sequence" := AInt discontinuitySeq]> hlsClipMetadata
    else hlsClipMetadata in
  let metadata :=
    namespaced streamingMetadataNamespace streamingMetadata
      (namespaced metadataNamespace hlsClipMetadata ∅) in
  let ref := {| ref_name := EmptyString; TargetURL := uri;
                ref_metadata := metadata |} in
  {| clip_name := name; media_reference := External ref;
     source_range := sourceRange; clip_metadata := metadata |}.

(** The local variables of [decodeMediaPlaylist], the metadata of the
    track and its children so far. *)
Record DecodeState : Type := mkState {
  currentDuration : float;
  currentTitle : string;
  currentByterange : option Byterange;
  currentKey : string;
  currentProgramDateTime : string;
  mapURI : string;
  mapByterange : option Byterange;
  lastByterangeEnd : Z;
  discontinuityCount : Z;
  hlsMetadata : gmap string Any;
  clips : list Clip
}.

Definition initialState : DecodeState :=
  {| currentDuration := 0%float; currentTitle := EmptyString;
     currentByterange := None; currentKey := EmptyString;
     currentProgramDateTime := EmptyString; mapURI := EmptyString;
     mapByterange := None; lastByterangeEnd := 0; discontinuityCount := 0;
     hlsMetadata := ∅; clips := [] |}.

Definition set_hlsMetadata (st : DecodeState) (key : string) (v : Any) :=
  {| currentDuration := currentDuration st; currentTitle := currentTitle st;
     currentByterange := currentByterange st; currentKey := currentKey st;
     currentProgramDateTime := currentProgramDateTime st;
     mapURI := mapURI st; mapByterange := mapByterange st;
     lastByterangeEnd := lastByterangeEnd st;
     discontinuityCount := discontinuityCount st;
     hlsMetadata := <[key := v]> (hlsMetadata st); clips := clips st |}.

Section Decoder.

(** The value that [strconv.ParseFloat(s, 64)] returns, its error
    dropped as the decoder drops it. *)
Variable ParseFloat : string -> float.

(** One turn of the loop of [decodeMediaPlaylist]: the [switch] on the
    entry, its cases in the order of the source. *)
Definition step (st : DecodeState) (entry : PlaylistEntry) : DecodeState :=
  if IsTag entry "EXT-X-VERSION" then
    set_hlsMetadata st "version"
      (AInt (fst (Strconv.Atoi (GoStrings.TrimSpace (Value entry)))))
  else if IsTag entry "EXT-X-TARGETDURATION" then
    set_hlsMetadata st "target_duration"
      (AInt (fst (Strconv.Atoi (GoStrings.TrimSpace (Value entry)))))
  else if IsTag entry "EXT-X-MEDIA-SEQUENCE" then
    set_hlsMetadata st "media_sequence"
      (AInt (fst (Strconv.Atoi (GoStrings.TrimSpace (Value entry)))))
  else if IsTag entry "EXT-X-PLAYLIST-TYPE" then
    set_hlsMetadata st "playlist_type"
      (AStr (GoStrings.TrimSpace (Value entry)))
  else if IsTag entry "EXT-X-MAP" then
    let attrs := ParseAttributeList (Value entry) in
    let mapByterange' :=
      match Get attrs "BYTERANGE" with
      | EmptyString => mapByterange st
      | byterangeStr =>
          match NewByterangeFromString byterangeStr with
          | Ok b => Some b
          | Err _ => None
          end
      end in
    {| currentDuration := currentDuration st; currentTitle := currentTitle st;
       currentByterange := currentByterange st; currentKey := currentKey st;
       currentProgramDateTime := currentProgramDateTime st;
       mapURI := Get attrs "URI"; mapByterange := mapByterange';
       lastByterangeEnd := lastByterangeEnd st;
       discontinuityCount := discontinuityCount st;
       hlsMetadata := hlsMetadata st; clips := clips st |}
  else if IsTag entry "EXTINF" then
    let parts := GoStrings.SplitN (Value entry) "," 2 in
    let currentDuration' :=
      match parts with
      | p0 :: _ => ParseFloat (GoStrings.TrimSpace p0)
      | [] => currentDuration st
      end in
    let currentTitle' :=
      match parts with
      | _ :: p1 :: _ => GoStrings.TrimSpace p1
      | _ => currentTitle st
      end in
    {| currentDuration := currentDuration'; currentTitle := currentTitle';
       currentByterange := currentByterange st; currentKey := currentKey st;
       currentProgramDateTime := currentProgramDateTime st;
       mapURI := mapURI st; mapByterange := mapByterange st;
       lastByterangeEnd := lastByterangeEnd st;
       discontinuityCount := discontinuityCount st;
       hlsMetadata := hlsMetadata st; clips := clips st |}
  else if IsTag entry "EXT-X-BYTERANGE" then
    match NewByterangeFromString (GoStrings.TrimSpace (Value entry)) with
    | Ok br =>
        let br' :=
          if (Offset br =? 0) && (0 <? lastByterangeEnd st) then
            {| Count := Count br; Offset := lastByterangeEnd st |}
          else br in
        {| currentDuration := currentDuration st; currentTitle := currentTitle st;
           currentByterange := Some br'; currentKey := currentKey st;
           currentProgramDateTime := currentProgramDateTime st;
           mapURI := mapURI st; mapByterange := mapByterange st;
           lastByterangeEnd := lastByterangeEnd st;
           discontinuityCount := discontinuityCount st;
           hlsMetadata := hlsMetadata st; clips := clips st |}
    | Err _ => st
    end
  else if IsTag entry "EXT-X-KEY" then
    {| currentDuration := currentDuration st; currentTitle := currentTitle st;
       currentByterange := currentByterange st; currentKey := Value entry;
       currentProgramDateTime := currentProgramDateTime st;
       mapURI := mapURI st; mapByterange := mapByterange st;
       lastByterangeEnd := lastByterangeEnd st;
       discontinuityCount := discontinuityCount st;
       hlsMetadata := hlsMetadata st; clips := clips st |}
  else if IsTag entry "EXT-X-PROGRAM-DATE-TIME" then
    {| currentDuration := currentDuration st; currentTitle := currentTitle st;
       currentByterange := currentByterange st; currentKey := currentKey st;
       currentProgramDateTime := GoStrings.TrimSpace (Value entry);
       mapURI := mapURI st; mapByterange := mapByterange st;
       lastByterangeEnd := lastByterangeEnd st;
       discontinuityCount := discontinuityCount st;
       hlsMetadata := hlsMetadata st; clips := clips st |}
  else if IsTag entry "EXT-X-DISCONTINUITY" then
    {| currentDuration := currentDuration st; currentTitle := currentTitle st;
       currentByterange := currentByterange st; currentKey := currentKey st;
       currentProgramDateTime := currentProgramDateTime st;
       mapURI := mapURI st; mapByterange := mapByterange st;
       lastByterangeEnd := lastByterangeEnd st;
       discontinuityCount := add64 (discontinuityCount st) 1;
       hlsMetadata := hlsMetadata st; clips := clips st |}
  else
    match Type_ entry with
    | EntryTypeURI =>
        let clip :=
          createClip (URI entry) (currentDuration st) (currentTitle st)
            (currentByterange st) (mapURI st) (mapByterange st)
            (currentKey st) (currentProgramDateTime st)
            (discontinuityCount st) in
        let lastByterangeEnd' :=
          match currentByterange st with
          | Some b => add64 (Offset b) (Count b)
          | None => lastByterangeEnd st
          end in
        {| currentDuration := 0%float; currentTitle := EmptyString;
           currentByterange := None; currentKey := currentKey st;
           currentProgramDateTime := EmptyString;
           mapURI := mapURI st; mapByterange := mapByterange st;
           lastByterangeEnd := lastByterangeEnd';
           discontinuityCount := discontinuityCount st;
           hlsMetadata := hlsMetadata st; clips := clips st ++ [clip] |}
    | _ => st
    end.

(** The state after the loop over [entries]. *)
Definition run (st : DecodeState) (entries : list PlaylistEntry) : DecodeState :=
  foldl step st entries.

(** [decodeMediaPlaylist]: it has no failing path. *)
Definition decodeMediaPlaylist (entries : list PlaylistEntry) : result Timeline :=
  let st := run initialState entries in
  let trackMetadata : gmap string Any :=
    <[metadataNamespace := AMap (hlsMetadata st)]> ∅ in
  let track :=
    {| track_name := EmptyString; Kind := TrackKindVideo;
       track_children := ItemClip <$> clips st;
       track_metadata := trackMetadata |} in
  Ok {| timeline_name := "HLS Playlist"; Tracks := [ChildTrack track];
        timeline_metadata := ∅ |}.

(** [Decode] *)
Definition Decode (r : Bufio.Reader) : result Timeline :=
  match parsePlaylist r with
  | Err e => Err e
  | Ok entries =>
      if isMediaPlaylist entries then decodeMediaPlaylist entries
      else Err ErrUnsupportedPlaylistType
  end.

End Decoder.

(** ** encoder.go: master playlists *)

Definition newline : string := String LF EmptyString.

(** [m[ns].(map[string]interface{})], or an empty map: what
    [getHLSMetadata] and [getStreamingMetadata] return. *)
Definition getNamespace (ns : string) (metadata : gmap string Any) : gmap string Any :=
  match metadata !! ns with
  | Some (AMap m) => m
  | _ => ∅
  end.

Definition getHLSMetadata (metadata : gmap string Any) : gmap string Any :=
  getNamespace metadataNamespace metadata.

Definition getStreamingMetadata (track : Track) : gmap string Any :=
  getNamespace streamingMetadataNamespace (track_metadata track).

(** [getStringOrDefault] *)
Definition getStringOrDefault (m : gmap string Any) (key defaultVal : string) : string :=
  match m !! key with
  | Some (AStr val) => val
  | _ => defaultVal
  end.

Definition isTrue (m : gmap string Any) (key : string) : bool :=
  match m !! key with
  | Some (ABool b) => b
  | _ => false
  end.

Section Encoder.

(** The order in which a [range] loop visits a map. *)
Variable rangeOrder : forall A : Type, gmap string A -> list (string * A).

(** [fmt]'s [%v] of a [float64], a slice or a map. *)
Variable Sprint_other : Any -> string.

(** The conversion [int(val)] of a [float64]. *)
Variable float64ToInt : float -> Z.

(** [fmt.Sprintf("%v", v)] *)
Definition Sprint_v (v : Any) : string :=
  match v with
  | ANil => "<nil>"
  | ABool true => "true"
  | ABool false => "false"
  | AInt n => Strconv.FormatInt n
  | AInt64 n => Strconv.FormatInt n
  | AStr s => s
  | _ => Sprint_other v
  end.

(** [getIntOrDefault] *)
Definition getIntOrDefault (m : gmap string Any) (key : string) (defaultVal : Z) : Z :=
  match m !! key with
  | Some (AInt val) => val
  | Some (AFloat val) => float64ToInt val
  | _ => defaultVal
  end.

(** [AttributeList.String] *)
Definition AttributeList_String (a : gmap string string) : string :=
  GoStrings.Join (formatAttr <$> rangeOrder string a) ",".

(** [buildStreamInfAttributes] *)
Definition buildStreamInfAttributes (streamingMD : gmap string Any) : gmap string string :=
  let attrs : gmap string string := ∅ in
  let attrs :=
    match streamingMD !! "bandwidth" with
    | Some bandwidth => <["BANDWIDTH" := Sprint_v bandwidth]> attrs
    | None => attrs
    end in
  let attrs :=
    match streamingMD !! "codec" with
    | Some (AStr codec) => <["CODECS" := codec]> attrs
    | _ => attrs
    end in
  let attrs :=
    match streamingMD !! "frame_rate" with
    | Some frameRate => <["FRAME-RATE" := Sprint_v frameRate]> attrs
    | None => attrs
    end in
  match streamingMD !! "width", streamingMD !! "height" with
  | Some width, Some height =>
      <["RESOLUTION" := Sprint_v width +:+ "x" +:+ Sprint_v height]> attrs
  | _, _ => attrs
  end.

(** The header tags written from the metadata of the timeline. *)
Definition headerTag (kv : string * Any) : string :=
  let (key, value) := kv in
  if String.eqb key "master_playlist" then EmptyString
  else match value with
       | ANil => "#" +:+ key +:+ newline
       | _ => "#" +:+ key +:+ ":" +:+ Sprint_v value +:+ newline
       end.

(** The EXT-X-MEDIA line of an audio track. *)
Definition mediaLine (audioTrack : Track) : string :=
  let streamingMD := getStreamingMetadata audioTrack in
  let trackHLSMD := getHLSMetadata (track_metadata audioTrack) in
  let groupID := getStringOrDefault streamingMD "group_id" "audio1" in
  let uri := getStringOrDefault trackHLSMD "uri" (track_name audioTrack +:+ ".m3u8") in
  let attrs : gmap string string :=
    <["URI" := uri]> (<["NAME" := track_name audioTrack]>
      (<["GROUP-ID" := groupID]> (<["TYPE" := "AUDIO"]> ∅))) in
  let attrs := if isTrue streamingMD "autoselect" then <["AUTOSELECT" := "YES"]> attrs else attrs in
  let attrs := if isTrue streamingMD "default" then <["DEFAULT" := "YES"]> attrs else attrs in
  "#EXT-X-MEDIA:" +:+ AttributeList_String attrs +:+ newline.

(** The EXT-X-I-FRAME-STREAM-INF line of a video track, if it has an
    [iframe_uri]. *)
Definition iframeLine (videoTrack : Track) : option string :=
  match getHLSMetadata (track_metadata videoTrack) !! "iframe_uri" with
  | Some (AStr iframeURI) =>
      let attrs := buildStreamInfAttributes (getStreamingMetadata videoTrack) in
      let attrs := delete "CLOSED-CAPTIONS" (delete "SUBTITLES"
                     (delete "AUDIO" (delete "FRAME-RATE" attrs))) in
      let attrs := <["URI" := iframeURI]> attrs in
      Some ("#EXT-X-I-FRAME-STREAM-INF:" +:+ AttributeList_String attrs +:+ newline)
  | _ => None
  end.

(** "Combine attributes": what a linked audio track changes in the
    attributes of the video track. *)
Definition combineAttributes (attrs : gmap string string) (audioTrack : Track) : gmap string string :=
  let audioStreamingMD := getStreamingMetadata audioTrack in
  let audioGroupID := getStringOrDefault audioStreamingMD "group_id" "audio1" in
  let audioCodec := getStringOrDefault audioStreamingMD "codec" EmptyString in
  let audioBandwidth := getIntOrDefault audioStreamingMD "bandwidth" 0 in
  let attrs :=
    match audioCodec with
    | EmptyString => attrs
    | _ =>
        match attrs !! "CODECS" with
        | Some codec => <["CODECS" := codec +:+ "," +:+ audioCodec]> attrs
        | None => attrs
        end
    end in
  let attrs := <["AUDIO" := audioGroupID]> attrs in
  if 0 <? audioBandwidth then
    match GetInt attrs "BANDWIDTH" with
    | (bw, None) => <["BANDWIDTH" := Strconv.FormatInt (add64 bw audioBandwidth)]> attrs
    | _ => attrs
    end
  else attrs.

Definition streamInf (attrs : gmap string string) (uri : string) : string :=
  "#EXT-X-STREAM-INF:" +:+ AttributeList_String attrs +:+ newline
  +:+ uri +:+ newline.

(** The inner loop, over the linked names: the text written when one of
    them is the name of [audioTrack]. *)
Fixpoint linkNames (attrs : gmap string string) (uri : string)
    (audioTrack : Track) (linkedTracks : list Any) : option string :=
  match linkedTracks with
  | [] => None
  | linkedName :: rest =>
      match linkedName with
      | AStr linkedNameStr =>
          if String.eqb linkedNameStr (track_name audioTrack) then
            Some (streamInf (combineAttributes attrs audioTrack) uri)
          else linkNames attrs uri audioTrack rest
      | _ => linkNames attrs uri audioTrack rest
      end
  end.

(** The outer loop, over the audio tracks: it stops at the first track
    for which the inner loop wrote. *)
Fixpoint linkAudio (attrs : gmap string string) (uri : string)
    (audioTracks : list Track) (linkedTracks : list Any) : option string :=
  match audioTracks with
  | [] => None
  | audioTrack :: rest =>
      match linkNames attrs uri audioTrack linkedTracks with
      | Some written => Some written
      | None => linkAudio attrs uri rest linkedTracks
      end
  end.

(** The EXT-X-STREAM-INF block of a video track. *)
Definition streamInfBlock (audioTracks : list Track) (videoTrack : Track) : string :=
  let streamingMD := getStreamingMetadata videoTrack in
  let trackHLSMD := getHLSMetadata (track_metadata videoTrack) in
  let attrs := buildStreamInfAttributes streamingMD in
  let uri := getStringOrDefault trackHLSMD "uri" (track_name videoTrack +:+ ".m3u8") in
  let linked :=
    match track_metadata videoTrack !! "linked_tracks" with
    | Some (AList linkedTracks) => linkAudio attrs uri audioTracks linkedTracks
    | _ => None
    end in
  match linked with
  | Some written => written +:+ newline
  | None => streamInf attrs uri +:+ newline
  end.

Definition tracksOfKind (k : TrackKind) (children : list StackChild) : list Track :=
  omap (fun child =>
          match child with
          | ChildTrack track =>
              match Kind track, k with
              | TrackKindVideo, TrackKindVideo => Some track
              | TrackKindAudio, TrackKindAudio => Some track
              | _, _ => None
              end
          | ChildOther => None
          end) children.

Definition concat (parts : list string) : string :=
  GoStrings.Join parts EmptyString.

(** [encodeMasterPlaylist]: the bytes written. *)
Definition encodeMasterPlaylist (t : Timeline) : string :=
  let timelineMetadata := getHLSMetadata (timeline_metadata t) in
  let videoTracks := tracksOfKind TrackKindVideo (Tracks t) in
  let audioTracks := tracksOfKind TrackKindAudio (Tracks t) in
  let iframes := omap iframeLine videoTracks in
  "#EXTM3U" +:+ newline +:+ "#EXT-X-VERSION:6" +:+ newline
  +:+ concat (headerTag <$> rangeOrder Any timelineMetadata)
  +:+ concat (mediaLine <$> audioTracks)
  +:+ (match audioTracks with [] => EmptyString | _ => newline end)
  +:+ concat iframes
  +:+ (match iframes with [] => EmptyString | _ => newline end)
  +:+ concat (streamInfBlock audioTracks <$> videoTracks).

End Encoder.


(** ** hls.go: byteranges as metadata *)

(** [ToMetadata] *)
Definition ToMetadata (b : Byterange) : gmap string Any :=
  <["offset" := AInt64 (Offset b)]> (<["count" := AInt64 (Count b)]> ∅).

Section MediaEncoder.

Variable rangeOrder : forall A : Type, gmap string A -> list (string * A).

(** The conversions [int(v)] and [int64(v)] of a [float64]. *)
Variable float64ToInt : float -> Z.

(** [clip.Duration()] of gotio, [None] when it returns an error;
    [ToSeconds]; and [fmt]'s [%.6f]. *)
Variable Clip_Duration : Clip -> option RationalTime.
Variable ToSeconds : RationalTime -> float.
Variable Sprintf_6f : float -> string.

(** [ByterangeFromMetadata] *)
Definition ByterangeFromMetadata (m : gmap string Any) : Byterange :=
  let count :=
    match m !! "count" with
    | Some (AInt64 count) => count
    | Some (AFloat count) => float64ToInt count
    | _ => 0
    end in
  let offset :=
    match m !! "offset" with
    | Some (AInt64 offset) => offset
    | Some (AFloat offset) => float64ToInt offset
    | _ => 0
    end in
  {| Count := count; Offset := offset |}.

(** [getTargetURL] *)
Definition getTargetURL (clip : Clip) : string :=
  match media_reference clip with
  | External extRef => TargetURL extRef
  | _ => EmptyString
  end.

(** [m[key]] asserted to be an [int], or a [float64] converted to one. *)
Definition intField (m : gmap string Any) (key : string) : option Z :=
  match m !! key with
  | Some (AInt v) => Some v
  | Some (AFloat v) => Some (float64ToInt v)
  | _ => None
  end.

(** The tags that [encodeMediaPlaylist] writes before the segments. *)
Definition mediaHeader (hlsMetadata : gmap string Any) : string :=
  "#EXTM3U" +:+ newline
  +:+ "#EXT-X-VERSION:"
  +:+ Strconv.FormatInt (default 3 (intField hlsMetadata "version"))
  +:+ newline
  +:+ match intField hlsMetadata "target_duration" with
      | Some td => "#EXT-X-TARGETDURATION:" +:+ Strconv.FormatInt td +:+ newline
      | None => EmptyString
      end
  +:+ match intField hlsMetadata "media_sequence" with
      | Some seq => "#EXT-X-MEDIA-SEQUENCE:" +:+ Strconv.FormatInt seq +:+ newline
      | None => EmptyString
      end
  +:+ match hlsMetadata !! "playlist_type" with
      | Some (AStr pt) => "#EXT-X-PLAYLIST-TYPE:" +:+ pt +:+ newline
      | _ => EmptyString
      end.

(** The EXT-X-MAP tag of a clip, if its metadata has a map that differs
    from the last one written, with the new [lastMapURI] and
    [lastMapByterange]. *)
Definition mapTag (clipHLSMetadata : gmap string Any) (last : string * string)
    : string * (string * string) :=
  match clipHLSMetadata !! "map" with
  | Some (AMap mapData) =>
      let mapURI :=
        match mapData !! "uri" with
        | Some (AStr u) => u
        | _ => EmptyString
        end in
      let mapByterangeStr :=
        match mapData !! "byterange" with
        | Some (AMap brData) => Byterange_String (ByterangeFromMetadata brData)
        | _ => EmptyString
        end in
      if negb (String.eqb mapURI (fst last))
         || negb (String.eqb mapByterangeStr (snd last))
      then
        let mapAttrs : gmap string string := <["URI" := mapURI]> ∅ in
        let mapAttrs :=
          match mapByterangeStr with
          | EmptyString => mapAttrs
          | _ => <["BYTERANGE" := mapByterangeStr]> mapAttrs
          end in
        ("#EXT-X-MAP:" +:+ AttributeList_String rangeOrder mapAttrs +:+ newline,
         (mapURI, mapByterangeStr))
      else (EmptyString, last)
  | _ => (EmptyString, last)
  end.

(** The tags and the URI line of one clip, after its EXT-X-MAP tag. *)
Definition segmentLines (clip : Clip) : string :=
  let clipHLSMetadata := getHLSMetadata (clip_metadata clip) in
  let duration :=
    match Clip_Duration clip with
    | Some d => d
    | None => mkRationalTime 0%float 1%float
    end in
  let durationSeconds := ToSeconds duration in
  let title := clip_name clip in
  (match title with
   | EmptyString => "#EXTINF:" +:+ Sprintf_6f durationSeconds +:+ "," +:+ newline
   | _ =>
       if String.eqb title (getTargetURL clip) then
         "#EXTINF:" +:+ Sprintf_6f durationSeconds +:+ "," +:+ newline
       else
         "#EXTINF:" +:+ Sprintf_6f durationSeconds +:+ "," +:+ title +:+ newline
   end)
  +:+ match clipHLSMetadata !! "byterange" with
      | Some (AMap brData) =>
          "#EXT-X-BYTERANGE:" +:+ Byterange_String (ByterangeFromMetadata brData)
          +:+ newline
      | _ => EmptyString
      end
  +:+ getTargetURL clip +:+ newline.

(** The loop over the children of the track: children that are not clips
    are skipped. *)
Fixpoint writeSegments (children : list Item) (last : string * string) : string :=
  match children with
  | [] => EmptyString
  | ItemOther :: rest => writeSegments rest last
  | ItemClip clip :: rest =>
      let (tag, last') := mapTag (getHLSMetadata (clip_metadata clip)) last in
      tag +:+ segmentLines clip +:+ writeSegments rest last'
  end.

(** [encodeMediaPlaylist]: the bytes written. *)
Definition encodeMediaPlaylist (track : Track) : string :=
  mediaHeader (getHLSMetadata (track_metadata track))
  +:+ writeSegments (track_children track) (EmptyString, EmptyString)
  +:+ "#EXT-X-ENDLIST" +:+ newline.

(** The errors of [Encode]: "timeline has no tracks" and "expected Track,
    got %T". *)
Inductive EncodeError : Set :=
  | ErrNoTracks
  | ErrExpectedTrack.

(** [Encode]: the bytes handed to the writer in one [Write], or an error.
    A timeline without a stack of tracks has no children. *)
Definition Encode (Sprint_other : Any -> string) (t : Timeline) : EncodeError + string :=
  match Tracks t with
  | [] => inl ErrNoTracks
  | child :: others =>
      let forceMaster :=
        match timeline_metadata t !! metadataNamespace with
        | Some (AMap hlsMap) =>
            match hlsMap !! "master_playlist" with
            | Some (ABool master) => master
            | _ => false
            end
        | _ => false
        end in
      match others, forceMaster with
      | [], false =>
          match child with
          | ChildTrack track => inr (encodeMediaPlaylist track)
          | ChildOther => inl ErrExpectedTrack
          end
      | _, _ => inr (encodeMasterPlaylist rangeOrder Sprint_other float64ToInt t)
      end
  end.

End MediaEncoder.

(** ** Predicates used in the statements *)

(** Every byte of [s] satisfies [p]. *)
Fixpoint allBytes (p : ascii -> bool) (s : string) : bool :=
  match s with
  | EmptyString => true
  | String c t => p c && allBytes p t
  end.

Definition notAt (c : ascii) : bool := negb (Ascii.eqb c "@").


(** The entries that [parsePlaylist] has classified when it returns. *)
Definition entriesOf (r : Bufio.Reader) : list PlaylistEntry :=
  classify (fst (Bufio.ScanLines r)).

(** [Scanner.Err()] is [bufio.ErrTooLong] after the scan. *)
Definition scanFailed (r : Bufio.Reader) : bool := snd (Bufio.ScanLines r).


(** An EXTINF tag comes before every EXT-X-STREAM-INF tag: the entry [i]
    is an EXTINF tag and no entry before it is an EXT-X-STREAM-INF tag. *)
Definition extinfFirst (entries : list PlaylistEntry) : Prop :=
  exists (i : nat) (e : PlaylistEntry),
    entries !! i = Some e /\ IsTag e "EXTINF" = true
    /\ forall (j : nat) (e' : PlaylistEntry),
         (j < i)%nat -> entries !! j = Some e' ->
         IsTag e' "EXT-X-STREAM-INF" = false.

(** The entry is a URI line. *)
Definition isURI (e : PlaylistEntry) : bool :=
  match Type_ e with
  | EntryTypeURI => true
  | _ => false
  end.

(** The number of URI lines among the entries. *)
Definition countURI (entries : list PlaylistEntry) : nat :=
  length (filter (fun e => isURI e = true) entries).

(** The number of tags [name] among the entries. *)
Definition countTag (name : string) (entries : list PlaylistEntry) : nat :=
  length (filter (fun e => IsTag e name = true) entries).

(** No entry is a tag [name]. *)
Definition noTag (name : string) (entries : list PlaylistEntry) : Prop :=
  Forall (fun e => IsTag e name = false) entries.

(** No entry is a URI line. *)
Definition noURI (entries : list PlaylistEntry) : Prop :=
  Forall (fun e => isURI e = false) entries.

(** The clip that the URI line [e] makes in the state [st]. *)
Definition emitClip (st : DecodeState) (e : PlaylistEntry) : Clip :=
  createClip (URI e) (currentDuration st) (currentTitle st)
    (currentByterange st) (mapURI st) (mapByterange st) (currentKey st)
    (currentProgramDateTime st) (discontinuityCount st).

(** What the metadata of a clip holds under a key, in the HLS namespace
    and in the streaming namespace. *)
Definition clipHLS (c : Clip) (key : string) : option Any :=
  getHLSMetadata (clip_metadata c) !! key.

Definition clipStreaming (c : Clip) (key : string) : option Any :=
  getNamespace streamingMetadataNamespace (clip_metadata c) !! key.

(** The discontinuity index of a clip: 0 when the key is absent. *)
Definition discIndex (c : Clip) : Z :=
  match clipHLS c "discontinuity_sequence" with
  | Some (AInt n) => n
  | _ => 0
  end.

(** The byterange of a clip, when its metadata has one. *)
Definition clipByterange (c : Clip) : option Byterange :=
  match clipStreaming c "byte_count", clipStreaming c "byte_offset" with
  | Some (AInt64 count), Some (AInt64 offset) =>
      Some {| Count := count; Offset := offset |}
  | _, _ => None
  end.

(** A string value, or nothing. *)
Definition strValue (s : string) : option Any :=
  match s with
  | EmptyString => None
  | _ => Some (AStr s)
  end.

(** The children of the only track of a timeline that are clips. *)
Definition clipsOf (tl : Timeline) : list Clip :=
  match Tracks tl with
  | [ChildTrack track] =>
      omap (fun i => match i with ItemClip c => Some c | ItemOther => None end)
        (track_children track)
  | _ => []
  end.

(** The clips that the loop of [decodeMediaPlaylist] adds to the track
    from the state [st], over the entries [es]. *)
Fixpoint segments (ParseFloat : string -> float) (st : DecodeState)
    (es : list PlaylistEntry) : list Clip :=
  match es with
  | [] => []
  | e :: rest =>
      if isURI e then emitClip st e :: segments ParseFloat (step ParseFloat st e) rest
      else segments ParseFloat (step ParseFloat st e) rest
  end.

(** The tags that the [switch] of [decodeMediaPlaylist] names. *)
Definition handledTags : list string :=
  ["EXT-X-VERSION"; "EXT-X-TARGETDURATION"; "EXT-X-MEDIA-SEQUENCE";
   "EXT-X-PLAYLIST-TYPE"; "EXT-X-MAP"; "EXTINF"; "EXT-X-BYTERANGE";
   "EXT-X-KEY"; "EXT-X-PROGRAM-DATE-TIME"; "EXT-X-DISCONTINUITY"].

(** A tag entry and a URI entry. *)
Definition tagEntry (name value : string) : PlaylistEntry :=
  {| Type_ := EntryTypeTag; Tag := name; Value := value; URI := EmptyString |}.

Definition uriEntry (uri : string) : PlaylistEntry :=
  {| Type_ := EntryTypeURI; Tag := EmptyString; Value := EmptyString; URI := uri |}.

(** The first entry is the EXTM3U tag. *)
Definition startsWithEXTM3U (entries : list PlaylistEntry) : Prop :=
  exists e rest, entries = e :: rest /\ IsTag e "EXTM3U" = true.

(** The metadata of the timeline asks for a master playlist:
    [forceMaster] in [Encode]. *)
Definition masterForced (t : Timeline) : bool :=
  match timeline_metadata t !! metadataNamespace with
  | Some (AMap hlsMap) =>
      match hlsMap !! "master_playlist" with
      | Some (ABool master) => master
      | _ => false
      end
  | _ => false
  end.

(** The children of a track that are clips. *)
Definition itemClips (children : list Item) : list Clip :=
  omap (fun i => match i with ItemClip c => Some c | ItemOther => None end)
    children.

(** A key of the attribute grammar: one byte of [[0-9A-Za-z_]] or more. *)
Definition wordKey (k : string) : Prop :=
  k <> EmptyString /\ allBytes isWord k = true.

Definition notQuote (c : ascii) : bool := negb (Ascii.eqb c quote).

(** The attribute [k="v"]: what [AttributeList.String] writes for a value
    that needs quoting. *)
Definition quotedAttr (kv : string * string) : string :=
  fst kv +:+ "=" +:+ String quote (snd kv) +:+ String quote EmptyString.

(** The attributes of a list, the later ones replacing the earlier. *)
Definition attrsOfList (l : list (string * string)) : gmap string string :=
  foldl (fun m kv => <[fst kv := snd kv]> m) ∅ l.

(** What a pattern returns when it matches: a key of word bytes, and a
    rest that is shorter than the input. *)
Definition goodMatch (s : string) (m : option (string * string * string)) : Prop :=
  match m with
  | Some (k, v, rest) =>
      wordKey k /\ (String.length rest < String.length s)%nat
  | None => True
  end.


(** One turn of the loop on a string that is not empty, [remaining]
    being the string once trimmed. *)
Definition parseTurn (fuel : nat) (remaining : string)
    (attrs : gmap string string) : gmap string string :=
  match firstMatch patterns remaining with
  | Some (k, v, rest) =>
      parseAttrs fuel (GoStrings.TrimPrefix rest ",") (<[k:=v]> attrs)
  | None =>
      if 0 <? GoStrings.Index remaining "," then
        parseAttrs fuel
          (GoStrings.drop (Z.to_nat (GoStrings.Index remaining "," + 1))
             remaining) attrs
      else attrs
  end.


(** A byte of ASCII that is no space and starts no space of Unicode. *)
Definition plainByte (c : ascii) : bool :=
  negb (GoStrings.asciiSpace c) && (code c <? 128)%N.


(** The number of bytes [sep] in [s]. *)
Fixpoint countByte (sep : ascii) (s : string) : nat :=
  match s with
  | EmptyString => O
  | String c t => ((if Ascii.eqb c sep then 1 else 0) + countByte sep t)%nat
  end.

(** A parser of durations for the examples: every duration is 9.5. *)
Definition sampleParseFloat (s : string) : float := 9.5%float.

(** *** Samples for the examples *)

Definition mediaSample : string :=
  "#EXTM3U" +:+ newline +:+ "#EXT-X-VERSION:3" +:+ newline
  +:+ "#EXT-X-TARGETDURATION:10" +:+ newline
  +:+ "#EXTINF:9.5,audio only" +:+ newline +:+ "audio/segment1.aac" +:+ newline
  +:+ "#EXT-X-ENDLIST" +:+ newline.

Definition masterSample : string :=
  "#EXTM3U" +:+ newline +:+ "#EXT-X-STREAM-INF:BANDWIDTH=1280000" +:+ newline
  +:+ "low.m3u8" +:+ newline.

(** The iteration order of the examples, and the other parameters of the
    encoder. *)
Definition sampleOrder (A : Type) (m : gmap string A) : list (string * A) :=
  map_to_list m.

Definition sampleSprint (v : Any) : string := EmptyString.
Definition sampleToInt (f : float) : Z := 0.
Definition sampleDuration (c : Clip) : option RationalTime :=
  duration <$> source_range c.
Definition sampleToSeconds (t : RationalTime) : float :=
  (rt_value t / rt_rate t)%float.
Definition sampleSprintf (f : float) : string := "9.500000".

(** The two tracks of the test of the master playlist, the link being on
    the video track. *)
Definition sampleVideo : Track :=
  {| track_name := "v1"; Kind := TrackKindVideo; track_children := [];
     track_metadata :=
       <["linked_tracks" := AList [AStr "a1"]]>
         (<["streaming" :=
              AMap (<["bandwidth" := AInt 123456]>
                      (<["codec" := AStr "avc1.4d401f"]>
                         (<["frame_rate" := AInt 24]> ∅)))]>
            (<["HLS" := AMap (<["uri" := AStr "v1/prog_index.m3u8"]>
                                (<["iframe_uri" := AStr "v1/iframe_index.m3u8"]> ∅))]>
               ∅)) |}.

Definition sampleAudio : Track :=
  {| track_name := "a1"; Kind := TrackKindAudio; track_children := [];
     track_metadata :=
       <["streaming" :=
           AMap (<["bandwidth" := AInt 12345]>
                   (<["codec" := AStr "mp4a.40.2"]>
                      (<["group_id" := AStr "audio1"]> ∅)))]>
         (<["HLS" := AMap (<["uri" := AStr "a1/prog_index.m3u8"]> ∅)]> ∅) |}.

(** A video track whose link names a track that the timeline does not
    have. *)
Definition sampleUnlinked : Track :=
  {| track_name := "v2"; Kind := TrackKindVideo; track_children := [];
     track_metadata :=
       <["linked_tracks" := AList [AStr "a2"]]>
         (<["streaming" :=
              AMap (<["bandwidth" := AInt 123456]>
                      (<["codec" := AStr "avc1.4d401f"]>
                         (<["width" := AInt 1280]>
                            (<["height" := AInt 720]> ∅))))]> ∅) |}.
(** * Properties *)

(** ** Strings *)

Lemma app_nil_l (s : string) : EmptyString +:+ s = s.
Proof. reflexivity. Qed.

Lemma app_cons (c : ascii) (s t : string) :
  String c s +:+ t = String c (s +:+ t).
Proof. reflexivity. Qed.

Lemma app_nil_r (s : string) : s +:+ EmptyString = s.
Proof. induction s as [|c s IH]; [done|]. by rewrite app_cons, IH. Qed.

Lemma app_assoc (s t u : string) : (s +:+ t) +:+ u = s +:+ (t +:+ u).
Proof. induction s as [|c s IH]; [done|]. by rewrite !app_cons, IH. Qed.

Lemma allBytes_app p s t :
  allBytes p (s +:+ t) = allBytes p s && allBytes p t.
Proof.
  induction s as [|c s IH]; [done|].
  rewrite app_cons. simpl. by rewrite IH, andb_assoc.
Qed.

Lemma allBytes_impl (p q : ascii -> bool) s :
  (forall c, p c = true -> q c = true) ->
  allBytes p s = true -> allBytes q s = true.
Proof.
  intros Hpq. induction s as [|c s IH]; [done|]. simpl.
  intros [Hc Hs]%andb_true_iff. rewrite (Hpq _ Hc). simpl. auto.
Qed.

Lemma Split_no_sep s :
  allBytes notAt s = true -> GoStrings.Split s "@" = [s].
Proof.
  induction s as [|c s IH]; [done|]. simpl.
  intros [Hc Hs]%andb_true_iff. unfold notAt in Hc.
  apply negb_true_iff in Hc. rewrite Hc, (IH Hs). done.
Qed.

Lemma Split_at s t :
  allBytes notAt s = true ->
  GoStrings.Split (s +:+ String "@" t) "@" = s :: GoStrings.Split t "@".
Proof.
  induction s as [|c s IH]; [done|]. rewrite app_cons. simpl.
  intros [Hc Hs]%andb_true_iff. unfold notAt in Hc.
  apply negb_true_iff in Hc. rewrite Hc, (IH Hs). done.
Qed.

(** ** Decimal numerals *)

Lemma maxUint64_eq : maxUint64 = 18446744073709551615.
Proof. reflexivity. Qed.

Lemma digitChar_spec d :
  0 <= d <= 9 ->
  isDigit (Strconv.digitChar d) = true
  /\ Z.of_N (code (Strconv.digitChar d)) - 48 = d
  /\ notAt (Strconv.digitChar d) = true
  /\ Ascii.eqb (Strconv.digitChar d) "-" = false
  /\ Ascii.eqb (Strconv.digitChar d) "+" = false.
Proof.
  intros Hd.
  assert (d = 0 \/ d = 1 \/ d = 2 \/ d = 3 \/ d = 4 \/ d = 5 \/ d = 6
          \/ d = 7 \/ d = 8 \/ d = 9) as Hcases by lia.
  repeat (destruct Hcases as [-> | Hcases]); try subst d; by vm_compute.
Qed.

Lemma isDigit_notAt c : isDigit c = true -> notAt c = true.
Proof.
  unfold isDigit, char_in, notAt. intros [H1 H2]%andb_true_iff.
  apply negb_true_iff, Ascii.eqb_neq. intros ->. by vm_compute in H1.
Qed.

Lemma parseDigits_app s1 s2 n :
  Strconv.parseDigits (s1 +:+ s2) n =
  match Strconv.parseDigits s1 n with
  | (v, None) => Strconv.parseDigits s2 v
  | r => r
  end.
Proof.
  revert n. induction s1 as [|c s1 IH]; intros n; [done|].
  rewrite app_cons. simpl.
  destruct (isDigit c); [|done].
  destruct (_ <=? n); [done|].
  destruct (maxUint64 <? _); [done|]. apply IH.
Qed.

Lemma formatBits_acc f u acc :
  Strconv.formatBits f u acc = Strconv.formatBits f u EmptyString +:+ acc.
Proof.
  revert u acc. induction f as [|f IH]; intros u acc; [done|]. simpl.
  destruct (u <? 10); [done|].
  rewrite (IH _ (String _ acc)), (IH _ (String _ EmptyString)).
  by rewrite app_assoc.
Qed.

Lemma formatBits_digits f u acc :
  0 <= u -> allBytes isDigit acc = true ->
  allBytes isDigit (Strconv.formatBits f u acc) = true.
Proof.
  revert u acc. induction f as [|f IH]; intros u acc Hu Hacc; [done|]. simpl.
  destruct (Z.ltb_spec u 10).
  - simpl. destruct (digitChar_spec u) as [-> _]; [lia|done].
  - apply IH; [apply Z.div_pos; lia|]. simpl.
    destruct (digitChar_spec (u mod 10)) as [-> _]; [|done].
    pose proof (Z.mod_pos_bound u 10). lia.
Qed.

Lemma formatBits_head f u acc :
  0 <= u ->
  exists c t, Strconv.formatBits (S f) u acc = String c t /\ isDigit c = true.
Proof.
  revert u acc. induction f as [|f IH]; intros u acc Hu.
  - simpl. destruct (Z.ltb_spec u 10).
    + eexists _, _. split; [reflexivity|]. apply digitChar_spec. lia.
    + eexists _, _. split; [reflexivity|]. apply digitChar_spec.
      pose proof (Z.mod_pos_bound u 10). lia.
  - change (Strconv.formatBits (S (S f)) u acc) with
      (if u <? 10 then String (Strconv.digitChar u) acc
       else Strconv.formatBits (S f) (u / 10)
              (String (Strconv.digitChar (u mod 10)) acc)).
    destruct (Z.ltb_spec u 10).
    + eexists _, _. split; [reflexivity|]. apply digitChar_spec. lia.
    + apply IH. apply Z.div_pos; lia.
Qed.

Lemma parseDigits_formatBits f u :
  0 <= u < 2 ^ Z.of_nat f -> u <= maxUint64 ->
  Strconv.parseDigits (Strconv.formatBits f u EmptyString) 0 = (u, None).
Proof.
  revert u. induction f as [|f IH]; intros u Hu Hmax.
  - simpl in *. f_equal; lia.
  - simpl Strconv.formatBits. destruct (Z.ltb_spec u 10) as [Hlt|Hge].
    + simpl. destruct (digitChar_spec u) as (-> & -> & _); [lia|].
      rewrite maxUint64_eq in *.
      change (18446744073709551615 / 10 + 1 <=? 0) with false.
      cbv beta iota zeta.
      destruct (Z.ltb_spec 18446744073709551615 (0 * 10 + u)); [lia|].
      f_equal; lia.
    + rewrite formatBits_acc, parseDigits_app.
      assert (0 <= u / 10 < 2 ^ Z.of_nat f) as Hdiv.
      { split; [apply Z.div_pos; lia|].
        apply Z.div_lt_upper_bound; [lia|].
        rewrite Nat2Z.inj_succ, Z.pow_succ_r in Hu by lia. lia. }
      assert (u / 10 <= maxUint64) as Hdmax.
      { etrans; [|exact Hmax]. apply Z.div_le_upper_bound; lia. }
      rewrite (IH _ Hdiv Hdmax). simpl.
      pose proof (Z.mod_pos_bound u 10 ltac:(lia)) as Hmod.
      destruct (digitChar_spec (u mod 10)) as (-> & -> & _); [lia|].
      rewrite maxUint64_eq in *.
      change (18446744073709551615 / 10 + 1) with 1844674407370955162.
      pose proof (Z.div_mod u 10 ltac:(lia)) as Hdm.
      destruct (Z.leb_spec 1844674407370955162 (u / 10)); [lia|].
      cbv beta iota zeta.
      destruct (Z.ltb_spec 18446744073709551615 (u / 10 * 10 + u mod 10)); [lia|].
      f_equal; lia.
Qed.

Lemma log2_fuel u : 0 <= u -> u < 2 ^ Z.of_nat (S (Z.to_nat (Z.log2 u))).
Proof.
  intros Hu. rewrite Nat2Z.inj_succ, Z2Nat.id by apply Z.log2_nonneg.
  destruct (Z.eq_dec u 0) as [->|Hne]; [done|].
  apply Z.log2_spec. lia.
Qed.

Lemma ParseUint_FormatUint u :
  0 <= u <= maxUint64 ->
  Strconv.ParseUint (Strconv.FormatUint u) = (u, None).
Proof.
  intros [Hu Hmax]. unfold Strconv.FormatUint, Strconv.ParseUint.
  destruct (formatBits_head (Z.to_nat (Z.log2 u)) u EmptyString Hu)
    as (c & t & Heq & _).
  rewrite <- (parseDigits_formatBits (S (Z.to_nat (Z.log2 u))) u);
    [|split; [done|by apply log2_fuel]|done].
  by rewrite Heq.
Qed.

Lemma ParseInt_minus t :
  Strconv.ParseInt (String "-" t) =
  match Strconv.ParseUint t with
  | (_, Some Strconv.ErrSyntax) => (0, Some Strconv.ErrSyntax)
  | (un, _) =>
      if 2 ^ 63 <? un then (- 2 ^ 63, Some Strconv.ErrRange) else (- un, None)
  end.
Proof. reflexivity. Qed.

Lemma ParseInt_plus t :
  Strconv.ParseInt (String "+" t) =
  match Strconv.ParseUint t with
  | (_, Some Strconv.ErrSyntax) => (0, Some Strconv.ErrSyntax)
  | (un, _) =>
      if 2 ^ 63 <=? un then (2 ^ 63 - 1, Some Strconv.ErrRange) else (un, None)
  end.
Proof.
  unfold Strconv.ParseInt. simpl. destruct (Strconv.ParseUint t) as [un [[]|]];
    try done; by destruct (_ <=? un).
Qed.

Lemma ParseInt_unsigned c t :
  Ascii.eqb c "-" = false -> Ascii.eqb c "+" = false ->
  Strconv.ParseInt (String c t) =
  match Strconv.ParseUint (String c t) with
  | (_, Some Strconv.ErrSyntax) => (0, Some Strconv.ErrSyntax)
  | (un, _) =>
      if 2 ^ 63 <=? un then (2 ^ 63 - 1, Some Strconv.ErrRange) else (un, None)
  end.
Proof.
  intros Hm Hp. unfold Strconv.ParseInt. rewrite Hm, Hp. simpl orb. cbv iota.
  destruct (Strconv.ParseUint _) as [un [[]|]];
    try done; by destruct (_ <=? un).
Qed.

(** Parsing what [FormatInt] prints returns the number: for every [i] of
    the 64-bit range. *)
Lemma ParseInt_FormatInt i :
  in_int64 i -> Strconv.ParseInt (Strconv.FormatInt i) = (i, None).
Proof.
  unfold in_int64, minInt64, maxInt64. intros Hi.
  change (2 ^ 63) with 9223372036854775808 in Hi.
  unfold Strconv.FormatInt. destruct (Z.ltb_spec i 0) as [Hneg|Hpos].
  - rewrite ParseInt_minus.
    rewrite ParseUint_FormatUint by (rewrite maxUint64_eq; lia).
    change (2 ^ 63) with 9223372036854775808.
    destruct (Z.ltb_spec 9223372036854775808 (- i)); [lia|].
    f_equal; lia.
  - pose proof (ParseUint_FormatUint i) as HP.
    unfold Strconv.FormatUint in *.
    destruct (formatBits_head (Z.to_nat (Z.log2 i)) i EmptyString Hpos)
      as (c & t & Heq & Hc).
    rewrite Heq in *.
    assert (Ascii.eqb c "-" = false /\ Ascii.eqb c "+" = false) as [Hm Hp].
    { unfold isDigit, char_in in Hc. apply andb_true_iff in Hc as [H1 H2].
      split; apply Ascii.eqb_neq; intros ->; by vm_compute in H1. }
    rewrite (ParseInt_unsigned _ _ Hm Hp).
    rewrite HP by (rewrite maxUint64_eq; lia).
    change (2 ^ 63) with 9223372036854775808.
    destruct (Z.leb_spec 9223372036854775808 i); [lia|]. done.
Qed.

Lemma FormatUint_notAt u :
  0 <= u -> allBytes notAt (Strconv.FormatUint u) = true.
Proof.
  intros Hu. apply (allBytes_impl isDigit); [apply isDigit_notAt|].
  by apply formatBits_digits.
Qed.

Lemma FormatInt_notAt i : allBytes notAt (Strconv.FormatInt i) = true.
Proof.
  unfold Strconv.FormatInt. destruct (Z.ltb_spec i 0).
  - simpl. apply FormatUint_notAt. lia.
  - by apply FormatUint_notAt.
Qed.

Lemma FormatInt_nonempty i : Strconv.FormatInt i <> EmptyString.
Proof.
  unfold Strconv.FormatInt. destruct (Z.ltb_spec i 0); [done|].
  unfold Strconv.FormatUint.
  destruct (formatBits_head (Z.to_nat (Z.log2 i)) i EmptyString)
    as (c & t & -> & _); done.
Qed.

Lemma parseDigits_nonneg s n v e :
  0 <= n -> Strconv.parseDigits s n = (v, e) -> 0 <= v.
Proof.
  revert n. induction s as [|c s IH]; intros n Hn; simpl.
  - intros [= <- _]. done.
  - destruct (isDigit c) eqn:Hc; [|intros [= <- _]; done].
    destruct (_ <=? n); [intros [= <- _]; done|].
    destruct (maxUint64 <? _); [intros [= <- _]; done|].
    apply IH. unfold isDigit, char_in in Hc.
    apply andb_true_iff in Hc as [H1%N.leb_le _]. lia.
Qed.

Lemma ParseUint_nonneg s v e : Strconv.ParseUint s = (v, e) -> 0 <= v.
Proof.
  unfold Strconv.ParseUint. destruct s; [intros [= <- _]; done|].
  by apply parseDigits_nonneg.
Qed.

(** A number that [ParseInt] accepts is in the 64-bit range. *)
Lemma ParseInt_range s n : Strconv.ParseInt s = (n, None) -> in_int64 n.
Proof.
  unfold in_int64, minInt64, maxInt64, Strconv.ParseInt.
  destruct s as [|c t]; [done|].
  destruct (Strconv.ParseUint _) as [un e] eqn:HP.
  apply ParseUint_nonneg in HP.
  change (2 ^ 63) with 9223372036854775808.
  assert (forall b : bool,
    (if negb b && (9223372036854775808 <=? un)
     then (9223372036854775808 - 1, Some Strconv.ErrRange)
     else if b && (9223372036854775808 <? un)
          then (- 9223372036854775808, Some Strconv.ErrRange)
          else (if b then - un else un, None)) = (n, None) ->
    - 9223372036854775808 <= n <= 9223372036854775808 - 1) as Hgen.
  { intros [|]; simpl.
    - destruct (Z.ltb_spec 9223372036854775808 un); [done|].
      intros [= <-]. lia.
    - destruct (Z.leb_spec 9223372036854775808 un); [done|].
      intros [= <-]. lia. }
  destruct e as [[]|]; [done|apply Hgen|apply Hgen].
Qed.

Lemma Split_nonempty s sep : GoStrings.Split s sep <> [].
Proof.
  destruct s as [|c s]; simpl; [done|].
  destruct (Ascii.eqb c sep); [done|]. by destruct (GoStrings.Split s sep).
Qed.

Lemma NewByterangeFromString_range s b :
  NewByterangeFromString s = Ok b ->
  in_int64 (Count b) /\ in_int64 (Offset b).
Proof.
  unfold NewByterangeFromString.
  destruct (_ || _); [done|].
  destruct (Strconv.ParseInt (nth 0 _ _)) as [count [e|]] eqn:Hc; [done|].
  apply ParseInt_range in Hc.
  destruct (_ =? 2)%nat.
  - destruct (Strconv.ParseInt (nth 1 _ _)) as [offset [e|]] eqn:Ho; [done|].
    apply ParseInt_range in Ho. intros [= <-]. done.
  - intros [= <-]. split; [done|]. by vm_compute.
Qed.

Lemma NewByterangeFromString_count count :
  in_int64 count ->
  NewByterangeFromString (Strconv.FormatInt count)
  = Ok {| Count := count; Offset := 0 |}.
Proof.
  intros Hc. unfold NewByterangeFromString.
  rewrite (Split_no_sep _ (FormatInt_notAt count)). simpl.
  by rewrite (ParseInt_FormatInt _ Hc).
Qed.

Lemma NewByterangeFromString_count_offset count offset :
  in_int64 count -> in_int64 offset ->
  NewByterangeFromString
    (Strconv.FormatInt count +:+ "@" +:+ Strconv.FormatInt offset)
  = Ok {| Count := count; Offset := offset |}.
Proof.
  intros Hc Ho. unfold NewByterangeFromString.
  change ("@" +:+ Strconv.FormatInt offset)
    with (String "@" (Strconv.FormatInt offset)).
  rewrite (Split_at _ _ (FormatInt_notAt count)).
  rewrite (Split_no_sep _ (FormatInt_notAt offset)). simpl.
  by rewrite (ParseInt_FormatInt _ Hc), (ParseInt_FormatInt _ Ho).
Qed.

(** A number that [ParseInt] accepts is negative only after a minus
    sign. *)
Lemma ParseInt_sign s n :
  Strconv.ParseInt s = (n, None) -> 0 <= n \/ exists t, s = String "-" t.
Proof.
  unfold Strconv.ParseInt. destruct s as [|c t]; [done|].
  destruct (Ascii.eqb_spec c "-") as [->|Hc]; [right; by eexists|].
  intros H. left. cbv zeta in H. rewrite orb_false_r in H.
  destruct (Strconv.ParseUint _) as [un e] eqn:HP.
  apply ParseUint_nonneg in HP. cbn [negb andb] in H.
  destruct e as [[]|]; [done| |];
    (destruct (2 ^ 63 <=? un); [done|]); by injection H as <-.
Qed.

Lemma Split_head s sep c t :
  nth 0 (GoStrings.Split s sep) EmptyString = String c t ->
  exists t', s = String c t'.
Proof.
  destruct s as [|c0 s0]; [done|]. simpl.
  destruct (Ascii.eqb c0 sep); [done|].
  destruct (GoStrings.Split s0 sep); simpl; intros [= -> _]; by eexists.
Qed.

Lemma Split_one s sep v : GoStrings.Split s sep = [v] -> s = v.
Proof.
  revert v. induction s as [|c s IH]; intros v; simpl; [by intros [= <-]|].
  destruct (Ascii.eqb c sep).
  - intros [= _ H]. by apply Split_nonempty in H.
  - destruct (GoStrings.Split s sep) as [|h r] eqn:Hs;
      [by apply Split_nonempty in Hs|].
    intros [= <- ->]. by rewrite (IH h).
Qed.

Lemma Split_two s sep u v :
  GoStrings.Split s sep = [u; v] -> s = u +:+ String sep v.
Proof.
  revert u. induction s as [|c s IH]; intros u; simpl; [done|].
  destruct (Ascii.eqb_spec c sep) as [->|Hc].
  - intros [= <- H]. apply Split_one in H. by rewrite H, app_nil_l.
  - destruct (GoStrings.Split s sep) as [|h r]; [done|].
    intros [= <- ->]. by rewrite app_cons, (IH h).
Qed.

(** Where the negative fields of an accepted byterange come from. *)
Lemma NewByterangeFromString_sign s b :
  NewByterangeFromString s = Ok b ->
  (0 <= Count b \/ exists t, s = String "-" t)
  /\ (0 <= Offset b \/ exists u t, s = u +:+ String "@" (String "-" t)).
Proof.
  unfold NewByterangeFromString.
  destruct (_ || _); [done|].
  destruct (Strconv.ParseInt (nth 0 _ _)) as [count [e|]] eqn:Hc; [done|].
  assert (0 <= count \/ exists t, s = String "-" t) as Hcount.
  { apply ParseInt_sign in Hc as [Hc|[t Ht]]; [by left|right].
    by apply Split_head in Ht. }
  destruct (length (GoStrings.Split s "@") =? 2)%nat eqn:Hlen.
  - destruct (Strconv.ParseInt (nth 1 _ _)) as [offset [e|]] eqn:Ho; [done|].
    intros [= <-]. split; [done|]. simpl.
    apply ParseInt_sign in Ho as [Ho|[t Ht]]; [by left|right].
    apply Nat.eqb_eq in Hlen.
    destruct (GoStrings.Split s "@") as [|u [|v [|w r]]] eqn:Hs; try done.
    simpl in Ht. subst v. apply Split_two in Hs. by exists u, t.
  - intros [= <-]. split; [done|]. by left.
Qed.

(** ** Claims on the byterange codec *)

(** C3, as it is stated, fails: the count 2^63 is a non-negative integer,
    and parsing its decimal string is a range error, so that there is no
    result to format. *)
Lemma byterange_roundtrip_count_out_of_range :
  0 <= 2 ^ 63
  /\ Strconv.FormatInt (2 ^ 63) = "9223372036854775808"
  /\ NewByterangeFromString (Strconv.FormatInt (2 ^ 63))
     = Err (ErrByterangeCount Strconv.ErrRange).
Proof. by vm_compute. Qed.

(** C3, amended: for every count from 0 to 2^63 - 1, the range of the
    signed 64-bit field, formatting the result of parsing its decimal
    string returns that string; and for every byterange (of two signed
    64-bit fields) with a positive offset, parsing its formatted string
    returns the byterange. *)
Theorem byterange_roundtrip :
  (forall count : Z,
     0 <= count <= maxInt64 ->
     exists b, NewByterangeFromString (Strconv.FormatInt count) = Ok b
               /\ Byterange_String b = Strconv.FormatInt count)
  /\ (forall b : Byterange,
        in_int64 (Count b) -> in_int64 (Offset b) -> 0 < Offset b ->
        NewByterangeFromString (Byterange_String b) = Ok b).
Proof.
  split.
  - intros count [H0 Hmax]. eexists. split.
    + apply NewByterangeFromString_count. unfold in_int64, minInt64. lia.
    + reflexivity.
  - intros [count offset] Hc Ho Hpos. simpl in *.
    unfold Byterange_String. simpl.
    destruct (Z.ltb_spec 0 offset); [|lia].
    by apply NewByterangeFromString_count_offset.
Qed.

Lemma byterange_roundtrip_witness :
  (exists b, NewByterangeFromString (Strconv.FormatInt 535192) = Ok b
             /\ Byterange_String b = Strconv.FormatInt 535192)
  /\ NewByterangeFromString
       (Byterange_String {| Count := 534220; Offset := 1361 |})
     = Ok {| Count := 534220; Offset := 1361 |}.
Proof.
  split.
  - apply (proj1 byterange_roundtrip 535192). by vm_compute.
  - apply (proj2 byterange_roundtrip {| Count := 534220; Offset := 1361 |});
      by vm_compute.
Defined.

(** C9, as it is stated, fails: the count and the offset are parsed as
    signed integers, and a minus sign is accepted in both. *)
Lemma byterange_negative_fields_accepted :
  NewByterangeFromString "-5" = Ok {| Count := -5; Offset := 0 |}
  /\ NewByterangeFromString "5@-3" = Ok {| Count := 5; Offset := -3 |}
  /\ ~ (forall s b, NewByterangeFromString s = Ok b ->
                    0 <= Count b /\ 0 <= Offset b).
Proof.
  split; [by vm_compute|]. split; [by vm_compute|].
  intros H. destruct (H "-5" {| Count := -5; Offset := 0 |}) as [Hc _].
  - by vm_compute.
  - simpl in Hc. lia.
Qed.

(** C9, amended: for every input string on which byterange parsing
    succeeds, the count and the offset are signed 64-bit quantities, both
    between -2^63 and 2^63 - 1; the count is non-negative unless the
    string starts with a minus sign, and the offset is non-negative
    unless a minus sign follows the at sign; so both are non-negative,
    between 0 and 2^63 - 1, when the string holds no minus sign. *)
Theorem byterange_fields_nonnegative (s : string) (b : Byterange) :
  NewByterangeFromString s = Ok b ->
  (- 2 ^ 63 <= Count b <= 2 ^ 63 - 1) /\ (- 2 ^ 63 <= Offset b <= 2 ^ 63 - 1)
  /\ (0 <= Count b \/ exists t, s = "-" +:+ t)
  /\ (0 <= Offset b \/ exists u t, s = u +:+ "@-" +:+ t)
  /\ (allBytes (fun c => negb (Ascii.eqb c "-")) s = true ->
      0 <= Count b <= 2 ^ 63 - 1 /\ 0 <= Offset b <= 2 ^ 63 - 1).
Proof.
  intros H.
  destruct (NewByterangeFromString_range _ _ H) as [Hc Ho].
  destruct (NewByterangeFromString_sign _ _ H) as [Sc So].
  unfold in_int64, minInt64, maxInt64 in Hc, Ho.
  split; [done|]. split; [done|]. split; [done|]. split; [done|].
  intros Hs. split.
  - destruct Sc as [?|[t ->]]; [lia|]. done.
  - destruct So as [?|(u & t & ->)]; [lia|].
    rewrite allBytes_app in Hs. apply andb_true_iff in Hs as [_ Hs].
    simpl in Hs. done.
Qed.

Lemma byterange_fields_nonnegative_witness :
  0 <= 534220 <= 2 ^ 63 - 1 /\ 0 <= 1361 <= 2 ^ 63 - 1.
Proof.
  apply (byterange_fields_nonnegative "534220@1361"
           {| Count := 534220; Offset := 1361 |}); by vm_compute.
Defined.

(** ** More on the byterange codec *)

Lemma length_Split s sep :
  length (GoStrings.Split s sep) = S (countByte sep s).
Proof.
  induction s as [|c s IH]; [done|]. simpl.
  destruct (Ascii.eqb c sep); simpl; [by rewrite IH|].
  destruct (GoStrings.Split s sep); simpl in *; lia.
Qed.

(** X27. The format error of a byterange: [NewByterangeFromString] returns
    it, with the string, exactly when the string has two [@] or more; the
    empty string is not such a case (its error is that of the count). *)
Theorem NewByterangeFromString_format_error (s s' : string) :
  NewByterangeFromString s = Err (ErrByterangeFormat s')
  <-> s' = s /\ (2 <= countByte "@" s)%nat.
Proof.
  unfold NewByterangeFromString.
  pose proof (length_Split s "@") as Hlen.
  destruct (Nat.eqb_spec (length (GoStrings.Split s "@")) 0) as [H0|H0]; [lia|].
  destruct (Nat.ltb_spec 2 (length (GoStrings.Split s "@"))) as [H2|H2]; simpl.
  - split; [intros [= <-]; split; [done|lia]|]. by intros [-> _].
  - destruct (Strconv.ParseInt (nth 0 _ _)) as [count [e|]].
    + split; [done|]. intros [_ ?]. lia.
    + destruct (Nat.eqb_spec (length (GoStrings.Split s "@")) 2).
      * destruct (Strconv.ParseInt (nth 1 _ _)) as [offset [e'|]];
          (split; [done|]; intros [_ ?]; lia).
      * split; [done|]. intros [_ ?]. lia.
Qed.

Lemma NewByterangeFromString_format_error_witness :
  NewByterangeFromString "1@2@3" = Err (ErrByterangeFormat "1@2@3").
Proof.
  apply (proj2 (NewByterangeFromString_format_error "1@2@3" "1@2@3")).
  split; [reflexivity|]. vm_compute. lia.
Defined.

(** X28. What [String] keeps of a byterange: parsing the string of a
    byterange of two 64-bit fields returns its count, and its offset when
    that is positive; an offset that is zero or negative is not written
    and reads back as 0. *)
Theorem NewByterangeFromString_of_String (b : Byterange) :
  in_int64 (Count b) -> in_int64 (Offset b) ->
  NewByterangeFromString (Byterange_String b)
  = Ok {| Count := Count b;
          Offset := if 0 <? Offset b then Offset b else 0 |}.
Proof.
  intros Hc Ho. unfold Byterange_String. destruct (0 <? Offset b).
  - by apply NewByterangeFromString_count_offset.
  - by apply NewByterangeFromString_count.
Qed.

Lemma NewByterangeFromString_of_String_witness :
  NewByterangeFromString (Byterange_String {| Count := 5; Offset := -3 |})
  = Ok {| Count := 5; Offset := 0 |}.
Proof.
  apply (NewByterangeFromString_of_String {| Count := 5; Offset := -3 |});
    by vm_compute.
Defined.

(** ** The decoder: one turn of the loop *)

Lemma IsTag_true e name :
  IsTag e name = true <-> Type_ e = EntryTypeTag /\ Tag e = name.
Proof.
  unfold IsTag. destruct (Type_ e).
  - split; [done|]. by intros [? _].
  - rewrite String.eqb_eq. split; [done|]. by intros [_ ?].
  - split; [done|]. by intros [? _].
Qed.

Lemma IsTag_other e a b : IsTag e a = true -> a <> b -> IsTag e b = false.
Proof.
  intros [_ Ha]%IsTag_true Hab. apply not_true_is_false.
  intros [_ Hb]%IsTag_true. congruence.
Qed.

Lemma IsTag_not_URI e a : IsTag e a = true -> isURI e = false.
Proof. intros [Ht _]%IsTag_true. unfold isURI. by rewrite Ht. Qed.

Lemma isURI_not_tag e a : isURI e = true -> IsTag e a = false.
Proof. unfold isURI, IsTag. by destruct (Type_ e). Qed.

(** The case analysis of the [switch]: one goal for each case, with the
    tests of the other tags rewritten to [false]. *)
Ltac switch_cases e :=
  unfold step;
  repeat match goal with
    | |- context [if IsTag e ?t then _ else _] =>
        let H := fresh "Htag" in destruct (IsTag e t) eqn:H
    end;
  try match goal with
    | H1 : IsTag e ?a = true, H2 : IsTag e ?b = true |- _ =>
        exfalso; rewrite (IsTag_other e a b H1) in H2 by done; discriminate
    end;
  repeat match goal with
    | H : IsTag e ?t = true |- context [IsTag e ?t'] =>
        rewrite (IsTag_other e t t' H) by done
    | H : IsTag e ?t = true |- context [isURI e] =>
        rewrite (IsTag_not_URI e t H)
    end.

Section DecoderTurn.

Variable ParseFloat : string -> float.

Lemma step_URI st e :
  isURI e = true ->
  step ParseFloat st e =
  {| currentDuration := 0%float; currentTitle := EmptyString;
     currentByterange := None; currentKey := currentKey st;
     currentProgramDateTime := EmptyString;
     mapURI := mapURI st; mapByterange := mapByterange st;
     lastByterangeEnd :=
       match currentByterange st with
       | Some b => add64 (Offset b) (Count b)
       | None => lastByterangeEnd st
       end;
     discontinuityCount := discontinuityCount st;
     hlsMetadata := hlsMetadata st; clips := (clips st ++ [emitClip st e])%list |}.
Proof.
  intros Hu. unfold step. rewrite !(isURI_not_tag _ _ Hu).
  unfold isURI in Hu. by destruct (Type_ e).
Qed.

Lemma step_clips st e :
  clips (step ParseFloat st e) = if isURI e then (clips st ++ [emitClip st e])%list else clips st.
Proof.
  destruct (isURI e) eqn:Hu; [by rewrite step_URI|].
  switch_cases e; try done.
  - by destruct (NewByterangeFromString _).
  - unfold isURI in Hu. by destruct (Type_ e).
Qed.

Lemma step_currentKey st e :
  currentKey (step ParseFloat st e) =
  if IsTag e "EXT-X-KEY" then Value e else currentKey st.
Proof.
  switch_cases e; try done.
  - by destruct (NewByterangeFromString _).
  - by destruct (Type_ e).
Qed.

Lemma step_currentProgramDateTime st e :
  currentProgramDateTime (step ParseFloat st e) =
  if IsTag e "EXT-X-PROGRAM-DATE-TIME" then GoStrings.TrimSpace (Value e)
  else if isURI e then EmptyString
  else currentProgramDateTime st.
Proof.
  switch_cases e; try done.
  - by destruct (NewByterangeFromString _).
  - unfold isURI. by destruct (Type_ e).
Qed.

Lemma step_discontinuityCount st e :
  discontinuityCount (step ParseFloat st e) =
  if IsTag e "EXT-X-DISCONTINUITY" then add64 (discontinuityCount st) 1
  else discontinuityCount st.
Proof.
  switch_cases e; try done.
  - by destruct (NewByterangeFromString _).
  - by destruct (Type_ e).
Qed.

Lemma step_mapURI st e :
  mapURI (step ParseFloat st e) =
  if IsTag e "EXT-X-MAP" then Get (ParseAttributeList (Value e)) "URI"
  else mapURI st.
Proof.
  switch_cases e; try done.
  - by destruct (NewByterangeFromString _).
  - by destruct (Type_ e).
Qed.

Lemma step_mapByterange st e :
  mapByterange (step ParseFloat st e) =
  if IsTag e "EXT-X-MAP" then
    match Get (ParseAttributeList (Value e)) "BYTERANGE" with
    | EmptyString => mapByterange st
    | byterangeStr =>
        match NewByterangeFromString byterangeStr with
        | Ok b => Some b
        | Err _ => None
        end
    end
  else mapByterange st.
Proof.
  switch_cases e; try done.
  - by destruct (NewByterangeFromString _).
  - by destruct (Type_ e).
Qed.

Lemma step_lastByterangeEnd st e :
  lastByterangeEnd (step ParseFloat st e) =
  if isURI e then
    match currentByterange st with
    | Some b => add64 (Offset b) (Count b)
    | None => lastByterangeEnd st
    end
  else lastByterangeEnd st.
Proof.
  destruct (isURI e) eqn:Hu; [by rewrite step_URI|].
  switch_cases e; try done.
  - by destruct (NewByterangeFromString _).
  - unfold isURI in Hu. by destruct (Type_ e).
Qed.

Lemma step_currentByterange st e :
  currentByterange (step ParseFloat st e) =
  if IsTag e "EXT-X-BYTERANGE" then
    match NewByterangeFromString (GoStrings.TrimSpace (Value e)) with
    | Ok br =>
        Some (if (Offset br =? 0) && (0 <? lastByterangeEnd st)
              then {| Count := Count br; Offset := lastByterangeEnd st |}
              else br)
    | Err _ => currentByterange st
    end
  else if isURI e then None
  else currentByterange st.
Proof.
  switch_cases e; try done.
  - by destruct (NewByterangeFromString _).
  - unfold isURI. by destruct (Type_ e).
Qed.

Lemma step_hlsMetadata_segment_tags st e :
  IsTag e "EXT-X-VERSION" = false ->
  IsTag e "EXT-X-TARGETDURATION" = false ->
  IsTag e "EXT-X-MEDIA-SEQUENCE" = false ->
  IsTag e "EXT-X-PLAYLIST-TYPE" = false ->
  hlsMetadata (step ParseFloat st e) = hlsMetadata st.
Proof.
  intros H1 H2 H3 H4. unfold step. rewrite H1, H2, H3, H4.
  repeat match goal with
    | |- context [if IsTag e ?t then _ else _] => destruct (IsTag e t)
    end; try done.
  - by destruct (NewByterangeFromString _).
  - by destruct (Type_ e).
Qed.

Lemma run_app st es1 es2 : run ParseFloat st (es1 ++ es2) = run ParseFloat (run ParseFloat st es1) es2.
Proof. apply foldl_app. Qed.

Lemma run_cons st e es : run ParseFloat st (e :: es) = run ParseFloat (step ParseFloat st e) es.
Proof. done. Qed.

End DecoderTurn.

(** ** The decoder: the metadata of a clip *)

Lemma getNamespace_namespaced ns m into :
  getNamespace ns (namespaced ns m into) =
  if decide (m = ∅) then getNamespace ns into else m.
Proof.
  unfold namespaced, getNamespace. case_decide; [done|].
  by rewrite lookup_insert_eq.
Qed.

Lemma getNamespace_namespaced_ne ns ns' m into :
  ns <> ns' ->
  getNamespace ns (namespaced ns' m into) = getNamespace ns into.
Proof.
  intros Hne. unfold namespaced, getNamespace. case_decide; [done|].
  by rewrite lookup_insert_ne.
Qed.

Lemma getNamespace_empty ns : getNamespace ns ∅ = ∅.
Proof. unfold getNamespace. by rewrite lookup_empty. Qed.

Section ClipMetadata.

Variables (uri : string) (dur : float) (title : string)
  (byterange : option Byterange) (mURI : string) (mByterange : option Byterange)
  (keyInfo programDateTime : string) (discontinuitySeq : Z).

Local Notation "'clip'" :=
  (createClip uri dur title byterange mURI mByterange keyInfo programDateTime
     discontinuitySeq).

(** The HLS namespace of a clip has the three keys that [createClip] may
    write, and no other. *)
Lemma clipHLS_createClip key :
  clipHLS clip key =
  if String.eqb key "EXT-X-KEY" then strValue keyInfo
  else if String.eqb key "EXT-X-PROGRAM-DATE-TIME" then strValue programDateTime
  else if String.eqb key "discontinuity_sequence" then
    (if 0 <? discontinuitySeq then Some (AInt discontinuitySeq) else None)
  else None.
Proof.
  unfold clipHLS, createClip, getHLSMetadata. cbv zeta. simpl clip_metadata.
  rewrite getNamespace_namespaced_ne by done.
  rewrite getNamespace_namespaced, getNamespace_empty.
  match goal with |- (if decide (?m = ∅) then _ else _) !! _ = _ =>
    assert ((if decide (m = ∅) then ∅ else m) = m) as -> by (by case_decide)
  end.
  destruct (String.eqb_spec key "EXT-X-KEY") as [->|Hk];
    [|destruct (String.eqb_spec key "EXT-X-PROGRAM-DATE-TIME") as [->|Hp];
      [|destruct (String.eqb_spec key "discontinuity_sequence") as [->|Hd]]];
    destruct keyInfo, programDateTime, (0 <? discontinuitySeq);
    by simplify_map_eq.
Qed.

Lemma clipStreaming_createClip_bytes :
  clipStreaming clip "byte_count" = (fun b => AInt64 (Count b)) <$> byterange
  /\ clipStreaming clip "byte_offset" = (fun b => AInt64 (Offset b)) <$> byterange.
Proof.
  unfold clipStreaming, createClip. cbv zeta. simpl clip_metadata.
  rewrite getNamespace_namespaced.
  rewrite getNamespace_namespaced_ne, getNamespace_empty by done.
  match goal with |- (if decide (?m = ∅) then _ else _) !! _ = _ /\ _ =>
    assert ((if decide (m = ∅) then ∅ else m) = m) as -> by (by case_decide)
  end.
  unfold byterangeMetadata.
  destruct mURI, mByterange, byterange; split;
    rewrite ?lookup_union_r by (by simplify_map_eq); by simplify_map_eq.
Qed.

Lemma clipByterange_createClip : clipByterange clip = byterange.
Proof.
  unfold clipByterange. destruct clipStreaming_createClip_bytes as [-> ->].
  by destruct byterange as [[]|].
Qed.

Lemma clipStreaming_createClip_init_uri :
  clipStreaming clip "init_uri" = strValue mURI.
Proof.
  unfold clipStreaming, createClip. cbv zeta. simpl clip_metadata.
  rewrite getNamespace_namespaced.
  rewrite getNamespace_namespaced_ne, getNamespace_empty by done.
  match goal with |- (if decide (?m = ∅) then _ else _) !! _ = _ =>
    assert ((if decide (m = ∅) then ∅ else m) = m) as -> by (by case_decide)
  end.
  unfold byterangeMetadata.
  destruct mURI, mByterange, byterange; simpl;
    rewrite ?lookup_union_l' by (by simplify_map_eq); by simplify_map_eq.
Qed.

Lemma getTargetURL_createClip : getTargetURL clip = uri.
Proof. done. Qed.

Lemma discIndex_createClip :
  0 <= discontinuitySeq -> discIndex clip = discontinuitySeq.
Proof.
  intros Hd. unfold discIndex. rewrite clipHLS_createClip. simpl.
  destruct (Z.ltb_spec 0 discontinuitySeq); [done|lia].
Qed.

End ClipMetadata.

(** ** The decoder: the loop *)

Lemma countURI_cons e es :
  countURI (e :: es) = ((if isURI e then 1 else 0) + countURI es)%nat.
Proof.
  unfold countURI. rewrite filter_cons.
  destruct (isURI e); by case_decide.
Qed.

Lemma countURI_app es1 es2 :
  countURI (es1 ++ es2) = (countURI es1 + countURI es2)%nat.
Proof. unfold countURI. by rewrite filter_app, length_app. Qed.

Lemma countTag_cons name e es :
  countTag name (e :: es) =
  ((if IsTag e name then 1 else 0) + countTag name es)%nat.
Proof.
  unfold countTag. rewrite filter_cons.
  destruct (IsTag e name); by case_decide.
Qed.

Lemma countTag_app name es1 es2 :
  countTag name (es1 ++ es2) = (countTag name es1 + countTag name es2)%nat.
Proof. unfold countTag. by rewrite filter_app, length_app. Qed.

Lemma countTag_le_length name es : (countTag name es <= length es)%nat.
Proof. apply length_filter. Qed.

Lemma countTag_noTag name es : noTag name es -> countTag name es = 0%nat.
Proof.
  induction 1 as [|e es He _ IH]; [done|].
  by rewrite countTag_cons, He, IH.
Qed.

Section DecoderLoop.

Variable ParseFloat : string -> float.

Lemma clips_run st es :
  clips (run ParseFloat st es) = (clips st ++ segments ParseFloat st es)%list.
Proof.
  revert st. induction es as [|e es IH]; intros st.
  - simpl. by rewrite List.app_nil_r.
  - rewrite run_cons, IH, step_clips. simpl.
    destruct (isURI e); [|done]. by rewrite <- List.app_assoc.
Qed.

Lemma segments_app st es1 es2 :
  segments ParseFloat st (es1 ++ es2)
  = (segments ParseFloat st es1 ++ segments ParseFloat (run ParseFloat st es1) es2)%list.
Proof.
  revert st. induction es1 as [|e es1 IH]; intros st; [done|].
  simpl. rewrite IH. by destruct (isURI e).
Qed.

Lemma length_segments st es : length (segments ParseFloat st es) = countURI es.
Proof.
  revert st. induction es as [|e es IH]; intros st; [done|].
  simpl. rewrite countURI_cons. destruct (isURI e); simpl; by rewrite IH.
Qed.

(** The clip of a URI line is made in the state that the entries before
    it leave, and its index is the number of URI lines before it. *)
Lemma segments_lookup st pre u rest :
  isURI u = true ->
  segments ParseFloat st (pre ++ u :: rest) !! countURI pre
  = Some (emitClip (run ParseFloat st pre) u).
Proof.
  intros Hu. rewrite segments_app. simpl. rewrite Hu.
  rewrite lookup_app_r by (rewrite length_segments; lia).
  by rewrite length_segments, Nat.sub_diag.
Qed.

(** Conversely, every clip is the clip of a URI line. *)
Lemma segments_inv st es i c :
  segments ParseFloat st es !! i = Some c ->
  exists pre u rest,
    es = (pre ++ u :: rest)%list /\ isURI u = true /\ countURI pre = i
    /\ c = emitClip (run ParseFloat st pre) u.
Proof.
  revert st i. induction es as [|e es IH]; intros st i; [done|].
  simpl. destruct (isURI e) eqn:Hu.
  - destruct i as [|i]; simpl.
    + intros [= <-]. by exists [], e, es.
    + intros (pre & u & rest & -> & Hu' & <- & ->)%IH.
      exists (e :: pre), u, rest. rewrite countURI_cons, Hu. done.
  - intros (pre & u & rest & -> & Hu' & <- & ->)%IH.
    exists (e :: pre), u, rest. rewrite countURI_cons, Hu. done.
Qed.

Lemma omap_ItemClip (l : list Clip) :
  omap (fun i => match i with ItemClip c => Some c | ItemOther => None end)
    (ItemClip <$> l) = l.
Proof. induction l as [|c l IH]; [done|]. simpl. f_equal. apply IH. Qed.

Lemma decodeMediaPlaylist_clips es tl :
  decodeMediaPlaylist ParseFloat es = Ok tl ->
  clipsOf tl = segments ParseFloat initialState es
  /\ exists track, Tracks tl = [ChildTrack track]
       /\ track_children track = ItemClip <$> clipsOf tl.
Proof.
  unfold decodeMediaPlaylist. intros [= <-]. unfold clipsOf.
  cbn [Tracks track_children]. rewrite omap_ItemClip, clips_run.
  split; [done|]. eexists. split; [done|]. done.
Qed.

(** *** What the entries before a URI line leave in the state *)

Lemma run_currentKey_noTag st es :
  noTag "EXT-X-KEY" es ->
  currentKey (run ParseFloat st es) = currentKey st.
Proof.
  intros H. revert st. induction H as [|e es He _ IH]; intros st; [done|].
  by rewrite run_cons, IH, step_currentKey, He.
Qed.

Lemma run_mapURI_noTag st es :
  noTag "EXT-X-MAP" es -> mapURI (run ParseFloat st es) = mapURI st.
Proof.
  intros H. revert st. induction H as [|e es He _ IH]; intros st; [done|].
  by rewrite run_cons, IH, step_mapURI, He.
Qed.

Lemma run_pdt_quiet st es :
  noTag "EXT-X-PROGRAM-DATE-TIME" es -> noURI es ->
  currentProgramDateTime (run ParseFloat st es) = currentProgramDateTime st.
Proof.
  intros H. revert st. induction H as [|e es He _ IH]; intros st Hu; [done|].
  apply Forall_cons in Hu as [Hu1 Hu2].
  by rewrite run_cons, IH, step_currentProgramDateTime, He, Hu1.
Qed.

Lemma run_currentByterange_quiet st es :
  noTag "EXT-X-BYTERANGE" es -> noURI es ->
  currentByterange (run ParseFloat st es) = currentByterange st.
Proof.
  intros H. revert st. induction H as [|e es He _ IH]; intros st Hu; [done|].
  apply Forall_cons in Hu as [Hu1 Hu2].
  by rewrite run_cons, IH, step_currentByterange, He, Hu1.
Qed.

Lemma run_lastByterangeEnd_noURI st es :
  noURI es -> lastByterangeEnd (run ParseFloat st es) = lastByterangeEnd st.
Proof.
  intros H. revert st. induction H as [|e es He _ IH]; intros st; [done|].
  by rewrite run_cons, IH, step_lastByterangeEnd, He.
Qed.

Lemma add64_small a b :
  minInt64 <= a + b <= maxInt64 -> add64 a b = a + b.
Proof.
  unfold add64, wrap64, minInt64, maxInt64.
  change (2 ^ 63) with 9223372036854775808.
  change (2 ^ 64) with 18446744073709551616. intros H.
  rewrite Z.mod_small by lia. lia.
Qed.

Lemma run_discontinuityCount st es :
  0 <= discontinuityCount st ->
  discontinuityCount st + Z.of_nat (length es) <= maxInt64 ->
  discontinuityCount (run ParseFloat st es)
  = discontinuityCount st + Z.of_nat (countTag "EXT-X-DISCONTINUITY" es).
Proof.
  revert st. induction es as [|e es IH]; intros st H0 Hmax.
  - simpl. unfold countTag. simpl. lia.
  - rewrite run_cons, countTag_cons. simpl length in Hmax.
    pose proof (step_discontinuityCount ParseFloat st e) as Hs.
    assert (discontinuityCount (step ParseFloat st e)
            = discontinuityCount st
              + (if IsTag e "EXT-X-DISCONTINUITY" then 1 else 0)) as Hstep.
    { rewrite Hs. destruct (IsTag e _); [|lia].
      apply add64_small. unfold minInt64, maxInt64 in *. lia. }
    rewrite IH.
    + rewrite Hstep. destruct (IsTag e _); lia.
    + rewrite Hstep. destruct (IsTag e _); lia.
    + rewrite Hstep. destruct (IsTag e _); lia.
Qed.

End DecoderLoop.

(** ** Properties of the decoder *)

Section DecoderProperties.

Variable ParseFloat : string -> float.

Lemma getTargetURL_segments st es :
  getTargetURL <$> segments ParseFloat st es
  = URI <$> filter (fun e => isURI e = true) es.
Proof.
  revert st. induction es as [|e es IH]; intros st; [done|].
  rewrite filter_cons. simpl. destruct (isURI e) eqn:Hu.
  - rewrite decide_True by done. rewrite !fmap_cons, IH. done.
  - rewrite decide_False by done. apply IH.
Qed.

(** X1. A decoded media playlist has one clip for each URI line, in the
    order of the lines, each referring to the text of its line; the track
    has no other children. *)
Theorem decode_one_clip_per_URI_line (es : list PlaylistEntry) (tl : Timeline) :
  decodeMediaPlaylist ParseFloat es = Ok tl ->
  length (clipsOf tl) = countURI es
  /\ getTargetURL <$> clipsOf tl = URI <$> filter (fun e => isURI e = true) es
  /\ exists track, Tracks tl = [ChildTrack track]
       /\ track_children track = ItemClip <$> clipsOf tl.
Proof.
  intros [-> Htrack]%decodeMediaPlaylist_clips.
  split; [apply length_segments|]. split; [apply getTargetURL_segments|].
  destruct Htrack as (track & H1 & H2). exists track. split; [done|].
  rewrite H2. f_equal.
Qed.

Lemma decoded_clip pre u rest tl :
  decodeMediaPlaylist ParseFloat (pre ++ u :: rest) = Ok tl ->
  isURI u = true ->
  clipsOf tl !! countURI pre
  = Some (emitClip (run ParseFloat initialState pre) u).
Proof.
  intros [-> _]%decodeMediaPlaylist_clips Hu. by apply segments_lookup.
Qed.

(** X2. The discontinuity index of a segment is the number of
    EXT-X-DISCONTINUITY tags before its URI line (the playlist having fewer
    than 2^63 entries, as every Go slice has). *)
Theorem discontinuity_index_counts_tags (pre : list PlaylistEntry)
    (u : PlaylistEntry) (rest : list PlaylistEntry) (tl : Timeline) :
  decodeMediaPlaylist ParseFloat (pre ++ u :: rest) = Ok tl ->
  isURI u = true ->
  Z.of_nat (length pre) < 2 ^ 63 ->
  exists c, clipsOf tl !! countURI pre = Some c
            /\ discIndex c = Z.of_nat (countTag "EXT-X-DISCONTINUITY" pre).
Proof.
  intros Hd Hu Hlen. eexists. split; [by apply (decoded_clip pre u rest)|].
  unfold emitClip.
  pose proof (run_discontinuityCount ParseFloat initialState pre) as Hrun.
  simpl in Hrun. unfold maxInt64 in Hrun.
  rewrite discIndex_createClip; rewrite Hrun; lia.
Qed.

Lemma countURI_prefix_lt (es pre1 rest1 pre2 rest2 : list PlaylistEntry)
    (e1 e2 : PlaylistEntry) :
  es = (pre1 ++ e1 :: rest1)%list -> es = (pre2 ++ e2 :: rest2)%list ->
  isURI e2 = true ->
  (countURI pre1 <= countURI pre2)%nat ->
  exists k, pre2 = (pre1 ++ k)%list.
Proof.
  intros H1 H2 Hu Hle.
  assert (pre1 `prefix_of` es) as P1 by (by exists (e1 :: rest1)).
  assert (pre2 `prefix_of` es) as P2 by (by exists (e2 :: rest2)).
  destruct (prefix_weak_total _ _ _ P1 P2) as [[k ->]|[k Hk]].
  - by exists k.
  - destruct k as [|x k].
    + exists []. rewrite List.app_nil_r in Hk. by rewrite Hk, List.app_nil_r.
    + exfalso. subst pre1. rewrite H2 in H1. rewrite <- List.app_assoc in H1.
      apply app_inv_head in H1. injection H1 as -> _.
      rewrite countURI_app, countURI_cons, Hu in Hle. lia.
Qed.

(** X3. Over the segments of a decoded media playlist the discontinuity
    index never decreases. *)
Theorem discontinuity_index_monotone (es : list PlaylistEntry) (tl : Timeline)
    (i j : nat) (ci cj : Clip) :
  decodeMediaPlaylist ParseFloat es = Ok tl ->
  Z.of_nat (length es) < 2 ^ 63 ->
  (i <= j)%nat ->
  clipsOf tl !! i = Some ci -> clipsOf tl !! j = Some cj ->
  discIndex ci <= discIndex cj.
Proof.
  intros [-> _]%decodeMediaPlaylist_clips Hlen Hij.
  intros (pre1 & u1 & rest1 & E1 & Hu1 & <- & ->)%segments_inv.
  intros (pre2 & u2 & rest2 & E2 & Hu2 & <- & ->)%segments_inv.
  destruct (countURI_prefix_lt es pre1 rest1 pre2 rest2 u1 u2)
    as [k ->]; try done.
  assert (Z.of_nat (length (pre1 ++ k)) < 2 ^ 63) as Hl2.
  { rewrite E2, !length_app in Hlen. rewrite length_app. lia. }
  assert (Z.of_nat (length pre1) < 2 ^ 63) as Hl1.
  { rewrite length_app in Hl2. lia. }
  unfold emitClip.
  pose proof (run_discontinuityCount ParseFloat initialState pre1) as R1.
  pose proof (run_discontinuityCount ParseFloat initialState (pre1 ++ k)) as R2.
  simpl in R1, R2. unfold maxInt64 in R1, R2.
  rewrite !discIndex_createClip; rewrite ?R1, ?R2; try lia.
  rewrite countTag_app. lia.
Qed.

(** X4. The encryption key is sticky: a segment carries the value of the
    last EXT-X-KEY tag before its URI line, whatever number of segments
    lies between them; it carries no key when that value is empty, or when
    no such tag comes before the line. *)
Theorem key_is_sticky :
  (forall (pre : list PlaylistEntry) (k : PlaylistEntry)
     (mid : list PlaylistEntry) (u : PlaylistEntry)
     (rest : list PlaylistEntry) (tl : Timeline),
     decodeMediaPlaylist ParseFloat (pre ++ k :: mid ++ u :: rest) = Ok tl ->
     IsTag k "EXT-X-KEY" = true -> noTag "EXT-X-KEY" mid -> isURI u = true ->
     exists c, clipsOf tl !! countURI (pre ++ k :: mid) = Some c
               /\ clipHLS c "EXT-X-KEY" = strValue (Value k))
  /\ (forall (pre : list PlaylistEntry) (u : PlaylistEntry)
        (rest : list PlaylistEntry) (tl : Timeline),
        decodeMediaPlaylist ParseFloat (pre ++ u :: rest) = Ok tl ->
        noTag "EXT-X-KEY" pre -> isURI u = true ->
        exists c, clipsOf tl !! countURI pre = Some c
                  /\ clipHLS c "EXT-X-KEY" = None).
Proof.
  split.
  - intros pre k mid u rest tl Hd Hk Hmid Hu. eexists. split.
    + apply (decoded_clip (pre ++ k :: mid) u rest); [|done].
      by rewrite <- List.app_assoc, <- app_comm_cons.
    + unfold emitClip. rewrite clipHLS_createClip. simpl.
      rewrite run_app, run_cons, (run_currentKey_noTag _ _ _ Hmid).
      by rewrite step_currentKey, Hk.
  - intros pre u rest tl Hd Hpre Hu.
    eexists. split; [by apply (decoded_clip pre u rest)|].
    unfold emitClip. rewrite clipHLS_createClip. simpl.
    by rewrite (run_currentKey_noTag _ _ _ Hpre).
Qed.

(** X5. The program date-time is per segment: the value of an
    EXT-X-PROGRAM-DATE-TIME tag, trimmed, goes to the next URI line, and a
    segment with no such tag since the URI line before it carries none. *)
Theorem program_date_time_is_per_segment (pre : list PlaylistEntry)
    (p : PlaylistEntry) (mid : list PlaylistEntry) (u : PlaylistEntry)
    (mid' : list PlaylistEntry) (u' : PlaylistEntry)
    (rest : list PlaylistEntry) (tl : Timeline) :
  decodeMediaPlaylist ParseFloat
    (pre ++ p :: mid ++ u :: mid' ++ u' :: rest) = Ok tl ->
  IsTag p "EXT-X-PROGRAM-DATE-TIME" = true ->
  noTag "EXT-X-PROGRAM-DATE-TIME" mid -> noURI mid -> isURI u = true ->
  noTag "EXT-X-PROGRAM-DATE-TIME" mid' -> noURI mid' -> isURI u' = true ->
  exists c c',
    clipsOf tl !! countURI pre = Some c
    /\ clipsOf tl !! S (countURI pre) = Some c'
    /\ clipHLS c "EXT-X-PROGRAM-DATE-TIME"
       = strValue (GoStrings.TrimSpace (Value p))
    /\ clipHLS c' "EXT-X-PROGRAM-DATE-TIME" = None.
Proof.
  intros Hd Hp Hmid Hmidu Hu Hmid' Hmidu' Hu'.
  assert (countURI mid = 0%nat) as Hc0.
  { clear -Hmidu. induction Hmidu as [|e es He _ IH]; [done|].
    by rewrite countURI_cons, He, IH. }
  assert (countURI mid' = 0%nat) as Hc0'.
  { clear -Hmidu'. induction Hmidu' as [|e es He _ IH]; [done|].
    by rewrite countURI_cons, He, IH. }
  pose proof (decoded_clip (pre ++ p :: mid) u (mid' ++ u' :: rest) tl) as H1.
  rewrite <- List.app_assoc, <- app_comm_cons in H1.
  specialize (H1 Hd Hu).
  rewrite countURI_app, countURI_cons, (IsTag_not_URI _ _ Hp), Hc0 in H1.
  replace (countURI pre + (0 + 0))%nat with (countURI pre) in H1 by lia.
  pose proof (decoded_clip (pre ++ p :: mid ++ u :: mid') u' rest tl) as H2.
  rewrite <- List.app_assoc, <- !app_comm_cons, <- List.app_assoc,
    <- app_comm_cons in H2.
  specialize (H2 Hd Hu').
  rewrite countURI_app, countURI_cons, (IsTag_not_URI _ _ Hp),
    countURI_app, countURI_cons, Hu, Hc0, Hc0' in H2.
  replace (countURI pre + (0 + (0 + (1 + 0))))%nat with (S (countURI pre))
    in H2 by lia.
  eexists _, _. split; [exact H1|]. split; [exact H2|]. split.
  - unfold emitClip. rewrite clipHLS_createClip. simpl.
    rewrite run_app, run_cons, (run_pdt_quiet _ _ _ Hmid Hmidu).
    by rewrite step_currentProgramDateTime, Hp.
  - unfold emitClip. rewrite clipHLS_createClip. simpl.
    rewrite run_app, run_cons, run_app, run_cons.
    rewrite (run_pdt_quiet _ _ _ Hmid' Hmidu').
    rewrite step_currentProgramDateTime, Hu.
    by rewrite (isURI_not_tag _ _ Hu).
Qed.


Lemma countURI_noURI es : noURI es -> countURI es = 0%nat.
Proof.
  induction 1 as [|e es He _ IH]; [done|].
  by rewrite countURI_cons, He, IH.
Qed.

(** X6. Contiguous byteranges: when a segment with the byterange [b1] is
    followed by a segment whose EXT-X-BYTERANGE tag parses to [br], the
    second segment has the count of [br], and its offset is the end of
    the first, [Offset b1 + Count b1] in 64-bit arithmetic, when [br] has
    the offset 0 and that end is positive; otherwise it is the offset of
    [br]. *)
Theorem byterange_continues_previous_segment (pre : list PlaylistEntry)
    (u1 : PlaylistEntry) (mid : list PlaylistEntry) (t : PlaylistEntry)
    (mid' : list PlaylistEntry) (u2 : PlaylistEntry)
    (rest : list PlaylistEntry) (tl : Timeline) (c1 : Clip)
    (b1 br : Byterange) :
  decodeMediaPlaylist ParseFloat
    (pre ++ u1 :: mid ++ t :: mid' ++ u2 :: rest) = Ok tl ->
  isURI u1 = true -> isURI u2 = true ->
  clipsOf tl !! countURI pre = Some c1 -> clipByterange c1 = Some b1 ->
  noTag "EXT-X-BYTERANGE" mid -> noURI mid ->
  IsTag t "EXT-X-BYTERANGE" = true ->
  NewByterangeFromString (GoStrings.TrimSpace (Value t)) = Ok br ->
  noTag "EXT-X-BYTERANGE" mid' -> noURI mid' ->
  exists c2,
    clipsOf tl !! S (countURI pre) = Some c2
    /\ clipByterange c2 =
       Some (if (Offset br =? 0) && (0 <? add64 (Offset b1) (Count b1))
             then {| Count := Count br; Offset := add64 (Offset b1) (Count b1) |}
             else br).
Proof.
  intros Hd Hu1 Hu2 Hc1 Hb1 Hmid Hmidu Ht Hbr Hmid' Hmidu'.
  rewrite (decoded_clip pre u1 _ tl Hd Hu1) in Hc1.
  injection Hc1 as <-. unfold emitClip in Hb1.
  rewrite clipByterange_createClip in Hb1.
  pose proof (decoded_clip (pre ++ u1 :: mid ++ t :: mid') u2 rest tl)
    as H2.
  rewrite <- List.app_assoc, <- !app_comm_cons, <- List.app_assoc,
    <- app_comm_cons in H2.
  specialize (H2 Hd Hu2).
  rewrite countURI_app, countURI_cons, Hu1, countURI_app, countURI_cons,
    (IsTag_not_URI _ _ Ht), (countURI_noURI _ Hmidu),
    (countURI_noURI _ Hmidu') in H2.
  replace (countURI pre + (1 + (0 + (0 + 0))))%nat with (S (countURI pre))
    in H2 by lia.
  eexists. split; [exact H2|].
  unfold emitClip. rewrite clipByterange_createClip.
  rewrite run_app, run_cons, run_app, run_cons.
  rewrite (run_currentByterange_quiet _ _ _ Hmid' Hmidu').
  rewrite step_currentByterange, Ht, Hbr.
  rewrite (run_lastByterangeEnd_noURI _ _ _ Hmidu).
  by rewrite step_lastByterangeEnd, Hu1, Hb1.
Qed.

(** X7. The init segment is sticky: every segment after an EXT-X-MAP tag,
    up to the next one, has for [init_uri] the URI attribute of the tag,
    and none when the tag has no URI attribute. *)
Theorem init_uri_is_sticky (pre : list PlaylistEntry) (m : PlaylistEntry)
    (mid : list PlaylistEntry) (u : PlaylistEntry) (rest : list PlaylistEntry)
    (tl : Timeline) :
  decodeMediaPlaylist ParseFloat (pre ++ m :: mid ++ u :: rest) = Ok tl ->
  IsTag m "EXT-X-MAP" = true -> noTag "EXT-X-MAP" mid -> isURI u = true ->
  exists c, clipsOf tl !! countURI (pre ++ m :: mid) = Some c
            /\ clipStreaming c "init_uri"
               = strValue (Get (ParseAttributeList (Value m)) "URI").
Proof.
  intros Hd Hm Hmid Hu. eexists. split.
  - apply (decoded_clip (pre ++ m :: mid) u rest); [|done].
    by rewrite <- List.app_assoc, <- app_comm_cons.
  - unfold emitClip. rewrite clipStreaming_createClip_init_uri.
    rewrite run_app, run_cons, (run_mapURI_noTag _ _ _ Hmid).
    by rewrite step_mapURI, Hm.
Qed.

(** X8. Comments and the tags that the [switch] does not name (such as
    EXT-X-ENDLIST) change nothing: the playlist decodes as it does without
    them. *)
Theorem unhandled_entries_are_ignored (pre : list PlaylistEntry)
    (e : PlaylistEntry) (rest : list PlaylistEntry) :
  isURI e = false ->
  Forall (fun name => IsTag e name = false) handledTags ->
  decodeMediaPlaylist ParseFloat (pre ++ e :: rest)
  = decodeMediaPlaylist ParseFloat (pre ++ rest).
Proof.
  intros Hu Hh.
  assert (forall st, step ParseFloat st e = st) as Hstep.
  { intros st. unfold handledTags in Hh.
    repeat (apply Forall_cons in Hh as [? Hh]).
    unfold step. repeat match goal with H : IsTag e _ = false |- _ =>
      rewrite H; clear H end.
    unfold isURI in Hu. by destruct (Type_ e). }
  unfold decodeMediaPlaylist.
  by rewrite !run_app, run_cons, Hstep.
Qed.

End DecoderProperties.

(** *** Examples of the properties of the decoder *)

Lemma decode_one_clip_per_URI_line_witness :
  exists tl,
    decodeMediaPlaylist sampleParseFloat
      [tagEntry "EXTM3U" ""; tagEntry "EXTINF" "9.5,"; uriEntry "a.ts";
       tagEntry "EXTINF" "9.5,"; uriEntry "b.ts"] = Ok tl
    /\ length (clipsOf tl) = 2%nat
    /\ getTargetURL <$> clipsOf tl = ["a.ts"; "b.ts"].
Proof.
  eexists. split; [reflexivity|].
  destruct (decode_one_clip_per_URI_line sampleParseFloat
              [tagEntry "EXTM3U" ""; tagEntry "EXTINF" "9.5,"; uriEntry "a.ts";
               tagEntry "EXTINF" "9.5,"; uriEntry "b.ts"] _ eq_refl)
    as (H1 & H2 & _).
  split; [exact H1|exact H2].
Defined.

Lemma discontinuity_index_counts_tags_witness :
  exists tl c,
    decodeMediaPlaylist sampleParseFloat
      ([tagEntry "EXTM3U" ""; uriEntry "a.ts";
        tagEntry "EXT-X-DISCONTINUITY" ""]
       ++ uriEntry "b.ts" :: [tagEntry "EXT-X-ENDLIST" ""]) = Ok tl
    /\ clipsOf tl !! 1%nat = Some c /\ discIndex c = 1.
Proof.
  destruct (discontinuity_index_counts_tags sampleParseFloat
              [tagEntry "EXTM3U" ""; uriEntry "a.ts";
               tagEntry "EXT-X-DISCONTINUITY" ""]
              (uriEntry "b.ts") [tagEntry "EXT-X-ENDLIST" ""] _ eq_refl)
    as (c & H1 & H2); [reflexivity|by vm_compute|].
  eexists _, c. split; [reflexivity|]. split; [exact H1|exact H2].
Defined.

Lemma discontinuity_index_monotone_witness :
  exists tl c0 c1,
    decodeMediaPlaylist sampleParseFloat
      [tagEntry "EXTM3U" ""; uriEntry "a.ts";
       tagEntry "EXT-X-DISCONTINUITY" ""; uriEntry "b.ts"] = Ok tl
    /\ clipsOf tl !! 0%nat = Some c0 /\ clipsOf tl !! 1%nat = Some c1
    /\ discIndex c0 <= discIndex c1.
Proof.
  eexists _, _, _. split; [reflexivity|]. split; [reflexivity|].
  split; [reflexivity|].
  apply (discontinuity_index_monotone sampleParseFloat
           [tagEntry "EXTM3U" ""; uriEntry "a.ts";
            tagEntry "EXT-X-DISCONTINUITY" ""; uriEntry "b.ts"] _ 0 1 _ _ eq_refl);
    [by vm_compute|lia|reflexivity|reflexivity].
Defined.

Lemma key_is_sticky_witness :
  exists tl c,
    decodeMediaPlaylist sampleParseFloat
      ([tagEntry "EXTM3U" ""]
       ++ tagEntry "EXT-X-KEY" "METHOD=AES-128"
          :: [tagEntry "EXTINF" "9.5,"; uriEntry "a.ts"; tagEntry "EXTINF" "9.5,"]
             ++ uriEntry "b.ts" :: []) = Ok tl
    /\ clipsOf tl !! 1%nat = Some c
    /\ clipHLS c "EXT-X-KEY" = Some (AStr "METHOD=AES-128").
Proof.
  destruct (proj1 (key_is_sticky sampleParseFloat)
              [tagEntry "EXTM3U" ""] (tagEntry "EXT-X-KEY" "METHOD=AES-128")
              [tagEntry "EXTINF" "9.5,"; uriEntry "a.ts"; tagEntry "EXTINF" "9.5,"]
              (uriEntry "b.ts") [] _ eq_refl)
    as (c & H1 & H2); [reflexivity|by repeat constructor|reflexivity|].
  eexists _, c. split; [reflexivity|]. split; [exact H1|exact H2].
Defined.

Lemma program_date_time_is_per_segment_witness :
  exists tl c c',
    decodeMediaPlaylist sampleParseFloat
      ([tagEntry "EXTM3U" ""]
       ++ tagEntry "EXT-X-PROGRAM-DATE-TIME" "2023-01-01T00:00:00.000Z"
          :: [tagEntry "EXTINF" "9.5,"]
             ++ uriEntry "a.ts"
                :: [tagEntry "EXTINF" "9.5,"] ++ uriEntry "b.ts" :: []) = Ok tl
    /\ clipsOf tl !! 0%nat = Some c /\ clipsOf tl !! 1%nat = Some c'
    /\ clipHLS c "EXT-X-PROGRAM-DATE-TIME"
       = Some (AStr "2023-01-01T00:00:00.000Z")
    /\ clipHLS c' "EXT-X-PROGRAM-DATE-TIME" = None.
Proof.
  destruct (program_date_time_is_per_segment sampleParseFloat
              [tagEntry "EXTM3U" ""]
              (tagEntry "EXT-X-PROGRAM-DATE-TIME" "2023-01-01T00:00:00.000Z")
              [tagEntry "EXTINF" "9.5,"] (uriEntry "a.ts")
              [tagEntry "EXTINF" "9.5,"] (uriEntry "b.ts") [] _ eq_refl)
    as (c & c' & H1 & H2 & H3 & H4);
    [reflexivity|by repeat constructor|by repeat constructor|reflexivity
    |by repeat constructor|by repeat constructor|reflexivity|].
  eexists _, c, c'. split; [reflexivity|].
  split; [exact H1|]. split; [exact H2|]. split; [exact H3|exact H4].
Defined.

Lemma byterange_continues_previous_segment_witness :
  exists tl c2,
    decodeMediaPlaylist sampleParseFloat
      ([tagEntry "EXTM3U" ""; tagEntry "EXT-X-BYTERANGE" "534220@652"]
       ++ uriEntry "segment.m4s"
          :: [tagEntry "EXTINF" "9.5,"]
             ++ tagEntry "EXT-X-BYTERANGE" "535192"
                :: [] ++ uriEntry "segment.m4s" :: []) = Ok tl
    /\ clipsOf tl !! 1%nat = Some c2
    /\ clipByterange c2 = Some {| Count := 535192; Offset := 534872 |}.
Proof.
  destruct (byterange_continues_previous_segment sampleParseFloat
              [tagEntry "EXTM3U" ""; tagEntry "EXT-X-BYTERANGE" "534220@652"]
              (uriEntry "segment.m4s") [tagEntry "EXTINF" "9.5,"]
              (tagEntry "EXT-X-BYTERANGE" "535192") [] (uriEntry "segment.m4s") []
              _
              (emitClip
                 (run sampleParseFloat initialState
                    [tagEntry "EXTM3U" "";
                     tagEntry "EXT-X-BYTERANGE" "534220@652"])
                 (uriEntry "segment.m4s"))
              {| Count := 534220; Offset := 652 |}
              {| Count := 535192; Offset := 0 |} eq_refl)
    as (c2 & H1 & H2);
    [reflexivity|reflexivity|reflexivity|by vm_compute|by repeat constructor
    |by repeat constructor|reflexivity|by vm_compute|by repeat constructor
    |by repeat constructor|].
  eexists _, c2. split; [reflexivity|]. split; [exact H1|exact H2].
Defined.

Lemma init_uri_is_sticky_witness :
  exists tl c,
    decodeMediaPlaylist sampleParseFloat
      ([tagEntry "EXTM3U" ""]
       ++ tagEntry "EXT-X-MAP" "URI=INIT"
          :: [uriEntry "a.ts"] ++ uriEntry "b.ts" :: []) = Ok tl
    /\ clipsOf tl !! 1%nat = Some c
    /\ clipStreaming c "init_uri" = Some (AStr "INIT").
Proof.
  destruct (init_uri_is_sticky sampleParseFloat
              [tagEntry "EXTM3U" ""] (tagEntry "EXT-X-MAP" "URI=INIT")
              [uriEntry "a.ts"] (uriEntry "b.ts") [] _ eq_refl)
    as (c & H1 & H2); [reflexivity|by repeat constructor|reflexivity|].
  eexists _, c. split; [reflexivity|]. split; [exact H1|exact H2].
Defined.

Lemma unhandled_entries_are_ignored_witness :
  decodeMediaPlaylist sampleParseFloat
    ([tagEntry "EXTM3U" ""; uriEntry "a.ts"]
     ++ tagEntry "EXT-X-ENDLIST" "" :: [uriEntry "b.ts"])
  = decodeMediaPlaylist sampleParseFloat
      ([tagEntry "EXTM3U" ""; uriEntry "a.ts"] ++ [uriEntry "b.ts"]).
Proof.
  apply unhandled_entries_are_ignored; [reflexivity|by repeat constructor].
Defined.

(** ** Properties of [Decode] *)

Lemma parsePlaylist_unfold r :
  parsePlaylist r =
  if scanFailed r then Err ErrReadingPlaylist
  else match entriesOf r with
       | [] => Err ErrNotValidPlaylist
       | e :: _ =>
           if IsTag e "EXTM3U" then Ok (entriesOf r)
           else Err ErrNotValidPlaylist
       end.
Proof.
  unfold parsePlaylist, scanFailed, entriesOf.
  by destruct (Bufio.ScanLines r) as [lines tooLong].
Qed.

Lemma isMediaPlaylist_spec entries :
  isMediaPlaylist entries = true <-> extinfFirst entries.
Proof.
  induction entries as [|e entries IH]; simpl.
  - split; [done|]. by intros (i & e & ? & _).
  - destruct (IsTag e "EXTINF") eqn:Hinf.
    + split; [|done]. intros _. exists 0%nat, e. split; [done|].
      split; [done|]. intros j e' Hj. lia.
    + destruct (IsTag e "EXT-X-STREAM-INF") eqn:Hsi.
      * split; [done|]. intros (i & e0 & Hi & He0 & Hbefore).
        destruct i as [|i]; simpl in Hi; [congruence|].
        specialize (Hbefore 0%nat e ltac:(lia) eq_refl). congruence.
      * rewrite IH. split.
        -- intros (i & e0 & Hi & He0 & Hbefore). exists (S i), e0.
           split; [done|]. split; [done|]. intros [|j] e' Hj Hl.
           ++ simpl in Hl. congruence.
           ++ apply (Hbefore j); [lia|done].
        -- intros (i & e0 & Hi & He0 & Hbefore).
           destruct i as [|i]; simpl in Hi; [congruence|].
           exists i, e0. split; [done|]. split; [done|].
           intros j e' Hj Hl. apply (Hbefore (S j)); [lia|done].
Qed.

Lemma startsWithEXTM3U_dec entries :
  match entries with
  | e :: _ => if IsTag e "EXTM3U" then startsWithEXTM3U entries
              else ~ startsWithEXTM3U entries
  | [] => ~ startsWithEXTM3U entries
  end.
Proof.
  destruct entries as [|e rest].
  - by intros (? & ? & ? & _).
  - destruct (IsTag e "EXTM3U") eqn:He.
    + by exists e, rest.
    + intros (e' & rest' & [= <- <-] & He'). congruence.
Qed.

Section DecodeProperties.

Variable ParseFloat : string -> float.


Lemma Decode_Ok_decodeMediaPlaylist (r : Bufio.Reader) (tl : Timeline) :
  Decode ParseFloat r = Ok tl ->
  decodeMediaPlaylist ParseFloat (entriesOf r) = Ok tl.
Proof.
  unfold Decode. rewrite parsePlaylist_unfold.
  destruct (scanFailed r); [done|].
  destruct (entriesOf r) as [|e rest]; [done|].
  destruct (IsTag e "EXTM3U"); [|done].
  by destruct (isMediaPlaylist (e :: rest)).
Qed.

(** X9. [Decode] returns a timeline exactly when the scanner reads the
    input to its end, the first entry is the EXTM3U tag, and an EXTINF tag
    comes before every EXT-X-STREAM-INF tag; the timeline is then the one
    that [decodeMediaPlaylist] makes of the entries: it is named "HLS
    Playlist" and has one track, a video track without a name. *)
Theorem Decode_returns_timeline_iff (r : Bufio.Reader) (tl : Timeline) :
  Decode ParseFloat r = Ok tl
  <-> scanFailed r = false
      /\ startsWithEXTM3U (entriesOf r)
      /\ extinfFirst (entriesOf r)
      /\ decodeMediaPlaylist ParseFloat (entriesOf r) = Ok tl
      /\ timeline_name tl = "HLS Playlist"
      /\ exists track, Tracks tl = [ChildTrack track]
           /\ Kind track = TrackKindVideo
           /\ track_name track = EmptyString.
Proof.
  unfold Decode. rewrite parsePlaylist_unfold.
  pose proof (startsWithEXTM3U_dec (entriesOf r)) as Hs.
  pose proof (isMediaPlaylist_spec (entriesOf r)) as Hm.
  destruct (scanFailed r); [split; [done|by intros [? _]]|].
  destruct (entriesOf r) as [|e rest] eqn:He;
    [split; [done|by intros (_ & ? & _)]|].
  destruct (IsTag e "EXTM3U"); [|split; [done|by intros (_ & ? & _)]].
  destruct (isMediaPlaylist (e :: rest)).
  - split.
    + intros Hd. split; [done|]. split; [done|]. split; [by apply Hm|].
      split; [done|]. unfold decodeMediaPlaylist in Hd.
      injection Hd as <-. split; [done|]. by eexists.
    + by intros (_ & _ & _ & ? & _).
  - split; [done|]. intros (_ & _ & Hx%Hm & _). done.
Qed.

(** X10. The three errors of [Decode]: the read error when a line is too
    long for the scanner; otherwise the invalid-playlist error when there
    is no entry or the first entry is not the EXTM3U tag; otherwise the
    unsupported-type error when no EXTINF tag comes before the first
    EXT-X-STREAM-INF tag, or there is neither. *)
Theorem Decode_error_cases (r : Bufio.Reader) :
  (Decode ParseFloat r = Err ErrReadingPlaylist <-> scanFailed r = true)
  /\ (Decode ParseFloat r = Err ErrNotValidPlaylist
      <-> scanFailed r = false /\ ~ startsWithEXTM3U (entriesOf r))
  /\ (Decode ParseFloat r = Err ErrUnsupportedPlaylistType
      <-> scanFailed r = false /\ startsWithEXTM3U (entriesOf r)
          /\ ~ extinfFirst (entriesOf r)).
Proof.
  unfold Decode. rewrite parsePlaylist_unfold.
  pose proof (startsWithEXTM3U_dec (entriesOf r)) as Hs.
  pose proof (isMediaPlaylist_spec (entriesOf r)) as Hm.
  destruct (scanFailed r).
  { split; [done|]. split; (split; [done|by intros [? _]]). }
  destruct (entriesOf r) as [|e rest] eqn:He.
  { split; [done|]. split; [done|]. split; [done|]. by intros (_ & ? & _). }
  destruct (IsTag e "EXTM3U").
  - destruct (isMediaPlaylist (e :: rest)).
    + split; [done|]. split; [split; [done|by intros [_ ?]]|].
      split; [done|]. intros (_ & _ & Hx). destruct Hx. by apply Hm.
    + split; [done|]. split; [split; [done|by intros [_ ?]]|].
      split; [|done]. intros _. split; [done|]. split; [done|].
      intros Hx%Hm. done.
  - split; [done|]. split; [done|]. split; [done|]. by intros (_ & ? & _).
Qed.






Lemma step_version st e :
  hlsMetadata (step ParseFloat st e) !! "version" =
  if IsTag e "EXT-X-VERSION" then
    Some (AInt (fst (Strconv.Atoi (GoStrings.TrimSpace (Value e)))))
  else hlsMetadata st !! "version".
Proof.
  switch_cases e; try done; unfold set_hlsMetadata; simpl;
    try (by simplify_map_eq).
  - by destruct (NewByterangeFromString _).
  - by destruct (Type_ e).
Qed.

Lemma run_version_noTag st es :
  noTag "EXT-X-VERSION" es ->
  hlsMetadata (run ParseFloat st es) !! "version" = hlsMetadata st !! "version".
Proof.
  intros H. revert st. induction H as [|e es He _ IH]; intros st; [done|].
  by rewrite run_cons, IH, step_version, He.
Qed.

(** X12. The version of the track is that of the last EXT-X-VERSION tag:
    the integer that [strconv.Atoi] returns for its trimmed value, which
    is 0 when the value is no decimal numeral; without such a tag the
    track has no version. *)
Theorem track_version_is_last_tag :
  (forall (pre : list PlaylistEntry) (v : PlaylistEntry)
     (rest : list PlaylistEntry) (tl : Timeline),
     decodeMediaPlaylist ParseFloat (pre ++ v :: rest) = Ok tl ->
     IsTag v "EXT-X-VERSION" = true -> noTag "EXT-X-VERSION" rest ->
     exists track n,
       Tracks tl = [ChildTrack track]
       /\ getHLSMetadata (track_metadata track) !! "version" = Some (AInt n)
       /\ n = fst (Strconv.Atoi (GoStrings.TrimSpace (Value v)))
       /\ (snd (Strconv.Atoi (GoStrings.TrimSpace (Value v)))
           = Some Strconv.ErrSyntax -> n = 0))
  /\ (forall (es : list PlaylistEntry) (tl : Timeline),
        decodeMediaPlaylist ParseFloat es = Ok tl ->
        noTag "EXT-X-VERSION" es ->
        exists track,
          Tracks tl = [ChildTrack track]
          /\ getHLSMetadata (track_metadata track) !! "version" = None).
Proof.
  split.
  - intros pre v rest tl Hd Hv Hrest. unfold decodeMediaPlaylist in Hd.
    injection Hd as <-. eexists _, _. split; [done|]. simpl.
    unfold getHLSMetadata, getNamespace. rewrite lookup_insert_eq.
    rewrite run_app, run_cons, (run_version_noTag _ _ Hrest).
    rewrite step_version, Hv. split; [done|].
    split; [done|].
    unfold Strconv.Atoi, Strconv.ParseInt.
    destruct (GoStrings.TrimSpace (Value v)) as [|c s]; [done|].
    destruct (Strconv.ParseUint _) as [un [[]|]]; simpl; try done.
    + by repeat case_match.
    + by repeat case_match.
  - intros es tl Hd Hes. unfold decodeMediaPlaylist in Hd.
    injection Hd as <-. eexists. split; [done|]. simpl.
    unfold getHLSMetadata, getNamespace. rewrite lookup_insert_eq.
    by rewrite (run_version_noTag _ _ Hes).
Qed.

End DecodeProperties.

(** *** Examples of the properties of [Decode] *)

Lemma Decode_returns_timeline_iff_witness :
  exists tl, Decode sampleParseFloat (NewReader mediaSample) = Ok tl
             /\ timeline_name tl = "HLS Playlist".
Proof.
  eexists. split; [reflexivity|].
  by destruct (proj1 (Decode_returns_timeline_iff sampleParseFloat (NewReader mediaSample) _)
                 eq_refl) as (_ & _ & _ & _ & H & _).
Defined.

Lemma Decode_error_cases_witness :
  Decode sampleParseFloat (NewReader masterSample) = Err ErrUnsupportedPlaylistType.
Proof.
  apply (proj2 (proj2 (proj2 (Decode_error_cases sampleParseFloat (NewReader masterSample))))).
  split; [by vm_compute|]. split.
  - by eexists _, _.
  - rewrite <- isMediaPlaylist_spec. by vm_compute.
Defined.


Lemma track_version_is_last_tag_witness :
  exists tl track,
    decodeMediaPlaylist sampleParseFloat
      ([tagEntry "EXTM3U" ""; tagEntry "EXT-X-VERSION" "3"]
       ++ tagEntry "EXT-X-VERSION" " 7 " :: [uriEntry "a.ts"]) = Ok tl
    /\ Tracks tl = [ChildTrack track]
    /\ getHLSMetadata (track_metadata track) !! "version" = Some (AInt 7).
Proof.
  destruct (proj1 (track_version_is_last_tag sampleParseFloat)
              [tagEntry "EXTM3U" ""; tagEntry "EXT-X-VERSION" "3"]
              (tagEntry "EXT-X-VERSION" " 7 ") [uriEntry "a.ts"] _ eq_refl)
    as (track & n & H1 & H2 & H3 & _); [reflexivity|by repeat constructor|].
  eexists _, track. split; [reflexivity|]. split; [exact H1|].
  rewrite H2, H3. reflexivity.
Defined.

(** ** Properties of the master-playlist encoder *)

Section MasterEncoderProperties.

Variable rangeOrder : forall A : Type, gmap string A -> list (string * A).
Variable Sprint_other : Any -> string.
Variable float64ToInt : float -> Z.

Lemma buildStreamInfAttributes_lookup md key :
  buildStreamInfAttributes Sprint_other md !! key =
  if String.eqb key "BANDWIDTH" then Sprint_v Sprint_other <$> md !! "bandwidth"
  else if String.eqb key "CODECS" then
    match md !! "codec" with Some (AStr codec) => Some codec | _ => None end
  else if String.eqb key "FRAME-RATE" then
    Sprint_v Sprint_other <$> md !! "frame_rate"
  else if String.eqb key "RESOLUTION" then
    match md !! "width", md !! "height" with
    | Some width, Some height =>
        Some (Sprint_v Sprint_other width +:+ "x" +:+ Sprint_v Sprint_other height)
    | _, _ => None
    end
  else None.
Proof.
  unfold buildStreamInfAttributes.
  destruct (String.eqb_spec key "BANDWIDTH") as [->|Hb];
    [|destruct (String.eqb_spec key "CODECS") as [->|Hc];
      [|destruct (String.eqb_spec key "FRAME-RATE") as [->|Hf];
        [|destruct (String.eqb_spec key "RESOLUTION") as [->|Hr]]]];
    destruct (md !! "bandwidth"), (md !! "codec") as [[]|], (md !! "frame_rate"),
      (md !! "width"), (md !! "height"); by simplify_map_eq.
Qed.

Lemma linkNames_listed attrs uri a linked :
  AStr (track_name a) ∈ linked ->
  linkNames rangeOrder float64ToInt attrs uri a linked
  = Some (streamInf rangeOrder (combineAttributes float64ToInt attrs a) uri).
Proof.
  induction linked as [|x linked IH]; [by intros ?%elem_of_nil|].
  intros [<-|Hin]%elem_of_cons; simpl.
  - by rewrite String.eqb_refl.
  - destruct x; try by apply IH.
    destruct (String.eqb s (track_name a)); [done|by apply IH].
Qed.

Lemma linkNames_not_listed attrs uri a linked :
  AStr (track_name a) ∉ linked ->
  linkNames rangeOrder float64ToInt attrs uri a linked = None.
Proof.
  induction linked as [|x linked IH]; [done|].
  intros [Hx Hl]%not_elem_of_cons. simpl.
  destruct x; try by apply IH.
  destruct (String.eqb_spec s (track_name a)) as [->|]; [done|by apply IH].
Qed.

Lemma linkAudio_first attrs uri pre a post linked :
  AStr (track_name a) ∈ linked ->
  (forall p, p ∈ pre -> AStr (track_name p) ∉ linked) ->
  linkAudio rangeOrder float64ToInt attrs uri (pre ++ a :: post) linked
  = Some (streamInf rangeOrder (combineAttributes float64ToInt attrs a) uri).
Proof.
  intros Ha. induction pre as [|p pre IH]; intros Hpre; simpl.
  - by rewrite linkNames_listed.
  - rewrite linkNames_not_listed by (apply Hpre; left).
    apply IH. intros q Hq. apply Hpre. by right.
Qed.

Lemma linkAudio_none attrs uri audioTracks linked :
  (forall a, a ∈ audioTracks -> AStr (track_name a) ∉ linked) ->
  linkAudio rangeOrder float64ToInt attrs uri audioTracks linked = None.
Proof.
  induction audioTracks as [|a l IH]; intros H; [done|]. simpl.
  rewrite linkNames_not_listed by (apply H; left).
  apply IH. intros q Hq. apply H. by right.
Qed.

Lemma GetInt_FormatInt (attrs : gmap string string) key n :
  attrs !! key = Some (Strconv.FormatInt n) -> in_int64 n ->
  GetInt attrs key = (n, None).
Proof.
  intros Hk Hn. unfold GetInt, Get. rewrite Hk. simpl.
  pose proof (FormatInt_nonempty n).
  destruct (Strconv.FormatInt n) eqn:E; [done|]. rewrite <- E.
  unfold Strconv.Atoi. by rewrite ParseInt_FormatInt.
Qed.

(** X13. Linked-track merge: when the metadata of a video track has, at
    its top level, a list [linked_tracks], the block of the track is
    written with the first audio track whose name is in the list: AUDIO is
    the group of that track, "audio1" if it has none; BANDWIDTH is the sum
    of the two bandwidths, in 64-bit arithmetic, when both are of type
    [int] and that of the audio track is positive; CODECS is the two
    codecs joined by a comma when the audio codec is not empty. *)
Theorem linked_audio_track_is_merged (pre : list Track) (a : Track)
    (post : list Track) (videoTrack : Track) (linked : list Any) :
  track_metadata videoTrack !! "linked_tracks" = Some (AList linked) ->
  AStr (track_name a) ∈ linked ->
  (forall p, p ∈ pre -> AStr (track_name p) ∉ linked) ->
  let attrs :=
    buildStreamInfAttributes Sprint_other (getStreamingMetadata videoTrack) in
  let uri :=
    getStringOrDefault (getHLSMetadata (track_metadata videoTrack)) "uri"
      (track_name videoTrack +:+ ".m3u8") in
  let merged := combineAttributes float64ToInt attrs a in
  streamInfBlock rangeOrder Sprint_other float64ToInt (pre ++ a :: post) videoTrack
  = "#EXT-X-STREAM-INF:" +:+ AttributeList_String rangeOrder merged +:+ newline
    +:+ uri +:+ newline +:+ newline
  /\ merged !! "AUDIO"
     = Some (getStringOrDefault (getStreamingMetadata a) "group_id" "audio1")
  /\ (forall vb ab : Z,
        getStreamingMetadata videoTrack !! "bandwidth" = Some (AInt vb) ->
        in_int64 vb ->
        getStreamingMetadata a !! "bandwidth" = Some (AInt ab) ->
        0 < ab ->
        merged !! "BANDWIDTH" = Some (Strconv.FormatInt (add64 vb ab)))
  /\ (forall vc ac : string,
        getStreamingMetadata videoTrack !! "codec" = Some (AStr vc) ->
        getStreamingMetadata a !! "codec" = Some (AStr ac) ->
        ac <> EmptyString ->
        merged !! "CODECS" = Some (vc +:+ "," +:+ ac)).
Proof.
  intros Hlinked Ha Hpre attrs uri merged. split; [|split; [|split]].
  - unfold streamInfBlock. rewrite Hlinked.
    rewrite (linkAudio_first _ _ _ _ _ _ Ha Hpre).
    unfold streamInf. fold attrs uri merged.
    by rewrite !app_assoc.
  - unfold merged, combineAttributes.
    destruct (0 <? _); [destruct (GetInt _ _) as [bw [e|]]|];
      by simplify_map_eq.
  - intros vb ab Hvb Hrange Hab Hpos. unfold merged, combineAttributes.
    unfold getIntOrDefault. rewrite Hab.
    destruct (Z.ltb_spec 0 ab); [|lia].
    match goal with |- context [GetInt ?m "BANDWIDTH"] =>
      rewrite (GetInt_FormatInt m "BANDWIDTH" vb)
    end; [by rewrite lookup_insert_eq| |done].
    rewrite lookup_insert_ne by done.
    assert (attrs !! "BANDWIDTH" = Some (Strconv.FormatInt vb)) as Hbw.
    { unfold attrs. rewrite buildStreamInfAttributes_lookup. simpl.
      by rewrite Hvb. }
    destruct (getStringOrDefault _ "codec" _); [done|].
    destruct (attrs !! "CODECS"); [|done]. by rewrite lookup_insert_ne.
  - intros vc ac Hvc Hac Hne. destruct ac as [|c ac']; [done|].
    assert (attrs !! "CODECS" = Some vc) as Hc.
    { unfold attrs. rewrite buildStreamInfAttributes_lookup. simpl.
      by rewrite Hvc. }
    assert (getStringOrDefault (getStreamingMetadata a) "codec" EmptyString
            = String c ac') as Hcodec
      by (unfold getStringOrDefault; by rewrite Hac).
    unfold merged, combineAttributes. rewrite Hcodec, Hc.
    destruct (0 <? _); [destruct (GetInt _ _) as [bw [e|]]|];
      by simplify_map_eq.
Qed.

(** X14. Without a link the block stands alone: when the metadata of a
    video track has no list [linked_tracks] at its top level, or the list
    names no audio track, the block is written from the attributes of the
    video track alone, and these have no AUDIO attribute. *)
Theorem unlinked_video_track_stands_alone (audioTracks : list Track)
    (videoTrack : Track) :
  (forall linked,
     track_metadata videoTrack !! "linked_tracks" = Some (AList linked) ->
     forall a, a ∈ audioTracks -> AStr (track_name a) ∉ linked) ->
  let attrs :=
    buildStreamInfAttributes Sprint_other (getStreamingMetadata videoTrack) in
  let uri :=
    getStringOrDefault (getHLSMetadata (track_metadata videoTrack)) "uri"
      (track_name videoTrack +:+ ".m3u8") in
  streamInfBlock rangeOrder Sprint_other float64ToInt audioTracks videoTrack
  = "#EXT-X-STREAM-INF:" +:+ AttributeList_String rangeOrder attrs +:+ newline
    +:+ uri +:+ newline +:+ newline
  /\ attrs !! "AUDIO" = None.
Proof.
  intros Hno attrs uri. split.
  - unfold streamInfBlock. fold attrs uri.
    assert (match track_metadata videoTrack !! "linked_tracks" with
            | Some (AList linkedTracks) =>
                linkAudio rangeOrder float64ToInt attrs uri audioTracks linkedTracks
            | _ => None
            end = None) as ->.
    { destruct (track_metadata videoTrack !! "linked_tracks") as [[]|];
        try done. apply linkAudio_none. by apply Hno. }
    unfold streamInf. by rewrite !app_assoc.
  - unfold attrs. by rewrite buildStreamInfAttributes_lookup.
Qed.

(** X15. I-frame filtering: the EXT-X-I-FRAME-STREAM-INF line of a video
    track is written exactly when the HLS metadata of the track has a
    string [iframe_uri]; its attributes are URI, which is that string, and
    the BANDWIDTH, CODECS and RESOLUTION of the track: never FRAME-RATE,
    AUDIO, SUBTITLES or CLOSED-CAPTIONS. *)
Theorem iframe_line_attributes (videoTrack : Track) (line : string) :
  iframeLine rangeOrder Sprint_other videoTrack = Some line ->
  exists (iframeURI : string) (attrs : gmap string string),
    getHLSMetadata (track_metadata videoTrack) !! "iframe_uri"
      = Some (AStr iframeURI)
    /\ line = "#EXT-X-I-FRAME-STREAM-INF:"
              +:+ AttributeList_String rangeOrder attrs +:+ newline
    /\ attrs !! "URI" = Some iframeURI
    /\ (forall key, In key ["BANDWIDTH"; "CODECS"; "RESOLUTION"] ->
          attrs !! key
          = buildStreamInfAttributes Sprint_other
              (getStreamingMetadata videoTrack) !! key)
    /\ (forall key, ~ In key ["URI"; "BANDWIDTH"; "CODECS"; "RESOLUTION"] ->
          attrs !! key = None).
Proof.
  unfold iframeLine.
  destruct (getHLSMetadata _ !! "iframe_uri") as [[| | | | |iframeURI| |]|];
    try done.
  intros [= <-]. eexists iframeURI, _. split; [done|]. split; [done|].
  split; [by rewrite lookup_insert_eq|]. split.
  - intros key [<-|[<-|[<-|[]]]]; by simplify_map_eq.
  - intros key Hkey.
    rewrite lookup_insert_ne by (intros <-; apply Hkey; simpl; tauto).
    rewrite !lookup_delete. repeat case_decide; try done.
    rewrite buildStreamInfAttributes_lookup.
    repeat match goal with |- context [String.eqb key ?k] =>
      destruct (String.eqb_spec key k) as [->|?]
    end; try done; exfalso; apply Hkey; simpl; tauto.
Qed.

End MasterEncoderProperties.

(** *** Examples of the properties of the master-playlist encoder *)

Lemma linked_audio_track_is_merged_witness :
  combineAttributes sampleToInt
    (buildStreamInfAttributes sampleSprint (getStreamingMetadata sampleVideo))
    sampleAudio !! "BANDWIDTH" = Some "135801"
  /\ combineAttributes sampleToInt
       (buildStreamInfAttributes sampleSprint (getStreamingMetadata sampleVideo))
       sampleAudio !! "CODECS" = Some "avc1.4d401f,mp4a.40.2".
Proof.
  destruct (linked_audio_track_is_merged sampleOrder sampleSprint sampleToInt
              [] sampleAudio [] sampleVideo [AStr "a1"])
    as (_ & _ & Hbw & Hcodec).
  - reflexivity.
  - apply list_elem_of_here.
  - intros p Hp. by apply elem_of_nil in Hp.
  - split.
    + apply (Hbw 123456 12345); [reflexivity|by vm_compute|reflexivity|lia].
    + apply (Hcodec "avc1.4d401f" "mp4a.40.2"); [reflexivity|reflexivity|done].
Defined.

Lemma unlinked_video_track_stands_alone_witness :
  streamInfBlock sampleOrder sampleSprint sampleToInt [sampleAudio]
    sampleUnlinked
  = "#EXT-X-STREAM-INF:CODECS=avc1.4d401f,RESOLUTION=1280x720,BANDWIDTH=123456"
    +:+ newline +:+ "v2.m3u8" +:+ newline +:+ newline
  /\ buildStreamInfAttributes sampleSprint (getStreamingMetadata sampleUnlinked)
       !! "AUDIO" = None.
Proof.
  destruct (unlinked_video_track_stands_alone sampleOrder sampleSprint
              sampleToInt [sampleAudio] sampleUnlinked) as [Hblock Hnone].
  - intros linked Hlinked a Ha Hin. vm_compute in Hlinked.
    injection Hlinked as <-.
    apply list_elem_of_singleton in Ha as ->.
    apply list_elem_of_singleton in Hin. discriminate Hin.
  - split; [|exact Hnone]. etrans; [exact Hblock|]. by vm_compute.
Defined.

Lemma iframe_line_attributes_witness :
  exists line iframeURI attrs,
    iframeLine sampleOrder sampleSprint sampleVideo = Some line
    /\ line = "#EXT-X-I-FRAME-STREAM-INF:"
              +:+ AttributeList_String sampleOrder attrs +:+ newline
    /\ attrs !! "URI" = Some iframeURI
    /\ attrs !! "FRAME-RATE" = None.
Proof.
  destruct (iframe_line_attributes sampleOrder sampleSprint sampleVideo _ eq_refl)
    as (iframeURI & attrs & _ & H1 & H2 & _ & H3).
  eexists _, iframeURI, attrs. split; [reflexivity|]. split; [exact H1|].
  split; [exact H2|]. apply H3. cbv [In].
  intros [H|[H|[H|[H|H]]]]; (discriminate H || exact H).
Defined.

(** ** Properties of the attribute-list parser *)

Lemma length_string_app (a b : string) :
  String.length (a +:+ b) = (String.length a + String.length b)%nat.
Proof.
  induction a as [|c a IH]; [done|]. rewrite app_cons. simpl. by rewrite IH.
Qed.

Lemma span_spec p s a b :
  span p s = (a, b) ->
  s = a +:+ b /\ allBytes p a = true
  /\ (String.length b <= String.length s)%nat.
Proof.
  revert a b. induction s as [|c s IH]; intros a b; simpl.
  - by intros [= <- <-].
  - destruct (p c) eqn:Hc.
    + destruct (span p s) as [a' b'] eqn:Hs. intros [= <- <-].
      destruct (IH _ _ eq_refl) as (-> & Ha & Hl).
      rewrite app_cons. simpl. rewrite Hc, Ha. split; [done|]. split; [done|lia].
    + intros [= <- <-]. done.
Qed.

Lemma span1_spec p s a b :
  span1 p s = Some (a, b) ->
  s = a +:+ b /\ allBytes p a = true /\ a <> EmptyString
  /\ (String.length b < String.length s)%nat.
Proof.
  unfold span1. destruct (span p s) as [a' b'] eqn:Hs.
  destruct (span_spec _ _ _ _ Hs) as (-> & Ha & Hl).
  destruct a' as [|c a']; [done|]. intros [= <- <-].
  split; [done|]. split; [done|]. split; [done|].
  rewrite length_string_app. simpl. lia.
Qed.

Lemma matchKey_spec s k r :
  matchKey s = Some (k, r) ->
  wordKey k /\ s = k +:+ String "=" r
  /\ (String.length r < String.length s)%nat.
Proof.
  unfold matchKey. destruct (span1 isWord s) as [[k' r']|] eqn:Hs; [|done].
  destruct (span1_spec _ _ _ _ Hs) as (-> & Hk & Hne & Hl).
  destruct r' as [|c r']; [done|].
  destruct (Ascii.eqb_spec c "=") as [->|]; [|done]. intros [= <- <-].
  split; [done|]. split; [done|]. simpl in Hl. lia.
Qed.

Lemma reQuoted_good s : goodMatch s (reQuoted s).
Proof.
  unfold reQuoted. destruct (matchKey s) as [[k r]|] eqn:Hk; [|done].
  destruct (matchKey_spec _ _ _ Hk) as (Hw & _ & Hl).
  destruct r as [|q r]; [done|]. destruct (Ascii.eqb q quote); [|done].
  destruct (span _ r) as [v rest] eqn:Hs.
  destruct (span_spec _ _ _ _ Hs) as (_ & _ & Hl').
  destruct rest as [|q' rest]; [done|]. simpl in *. split; [done|lia].
Qed.

Lemma reResolution_good s : goodMatch s (reResolution s).
Proof.
  unfold reResolution. destruct (matchKey s) as [[k r]|] eqn:Hk; [|done].
  destruct (matchKey_spec _ _ _ Hk) as (Hw & _ & Hl).
  destruct (span1 isDigit r) as [[w r1]|] eqn:H1; [|done].
  destruct (span1_spec _ _ _ _ H1) as (_ & _ & _ & Hl1).
  destruct r1 as [|x r1]; [done|]. destruct (Ascii.eqb x "x"); [|done].
  destruct (span1 isDigit r1) as [[h rest]|] eqn:H2; [|done].
  destruct (span1_spec _ _ _ _ H2) as (_ & _ & _ & Hl2).
  simpl in *. split; [done|lia].
Qed.

Lemma reHex_good s : goodMatch s (reHex s).
Proof.
  unfold reHex. destruct (matchKey s) as [[k r]|] eqn:Hk; [|done].
  destruct (matchKey_spec _ _ _ Hk) as (Hw & _ & Hl).
  destruct r as [|z [|x r]]; try done. destruct (_ && _); [|done].
  destruct (span1 isHex r) as [[h rest]|] eqn:H1; [|done].
  destruct (span1_spec _ _ _ _ H1) as (_ & _ & _ & Hl1).
  simpl in *. split; [done|lia].
Qed.

Lemma reFloat_good s : goodMatch s (reFloat s).
Proof.
  unfold reFloat. destruct (matchKey s) as [[k r]|] eqn:Hk; [|done].
  destruct (matchKey_spec _ _ _ Hk) as (Hw & _ & Hl).
  destruct (span1 isDigit r) as [[i rest]|] eqn:H1; [|done].
  destruct (span1_spec _ _ _ _ H1) as (_ & _ & _ & Hl1).
  destruct rest as [|dot r1]; [simpl in *; split; [done|lia]|].
  destruct (Ascii.eqb dot "."); [|simpl in *; split; [done|lia]].
  destruct (span1 isDigit r1) as [[f rest']|] eqn:H2.
  - destruct (span1_spec _ _ _ _ H2) as (_ & _ & _ & Hl2).
    simpl in *. split; [done|lia].
  - simpl in *. split; [done|lia].
Qed.

Lemma reEnum_good s : goodMatch s (reEnum s).
Proof.
  unfold reEnum. destruct (matchKey s) as [[k r]|] eqn:Hk; [|done].
  destruct (matchKey_spec _ _ _ Hk) as (Hw & _ & Hl).
  destruct (span1 isEnumChar r) as [[v rest]|] eqn:H1; [|done].
  destruct (span1_spec _ _ _ _ H1) as (_ & _ & _ & Hl1).
  simpl in *. split; [done|lia].
Qed.

Lemma firstMatch_good s : goodMatch s (firstMatch patterns s).
Proof.
  unfold patterns. simpl.
  pose proof (reQuoted_good s). destruct (reQuoted s); [done|].
  pose proof (reResolution_good s). destruct (reResolution s); [done|].
  pose proof (reHex_good s). destruct (reHex s); [done|].
  pose proof (reFloat_good s). destruct (reFloat s); [done|].
  pose proof (reEnum_good s). by destruct (reEnum s).
Qed.

(** *** Lengths *)

Lemma length_rev_app s1 s2 :
  String.length (String.rev_app s1 s2)
  = (String.length s1 + String.length s2)%nat.
Proof.
  revert s2. induction s1 as [|c s1 IH]; intros s2; [done|].
  simpl. rewrite IH. simpl. lia.
Qed.

Lemma length_rev s : String.length (String.rev s) = String.length s.
Proof. unfold String.rev. rewrite length_rev_app. simpl. lia. Qed.

Lemma TrimLeftSpace_cons b1 t1 :
  GoStrings.TrimLeftSpace (String b1 t1) =
  if GoStrings.asciiSpace b1 then GoStrings.TrimLeftSpace t1
  else match t1 with
       | String b2 t2 =>
           if GoStrings.space2 b1 b2 then GoStrings.TrimLeftSpace t2
           else match t2 with
                | String b3 t3 =>
                    if GoStrings.space3 b1 b2 b3 then GoStrings.TrimLeftSpace t3
                    else String b1 t1
                | EmptyString => String b1 t1
                end
       | EmptyString => String b1 t1
       end.
Proof. reflexivity. Qed.

Lemma trimRevSpace_cons b1 t1 :
  GoStrings.trimRevSpace (String b1 t1) =
  if GoStrings.asciiSpace b1 then GoStrings.trimRevSpace t1
  else match t1 with
       | String b2 t2 =>
           if GoStrings.space2 b2 b1 then GoStrings.trimRevSpace t2
           else match t2 with
                | String b3 t3 =>
                    if GoStrings.space3 b3 b2 b1 then GoStrings.trimRevSpace t3
                    else String b1 t1
                | EmptyString => String b1 t1
                end
       | EmptyString => String b1 t1
       end.
Proof. reflexivity. Qed.

Lemma length_TrimLeftSpace s :
  (String.length (GoStrings.TrimLeftSpace s) <= String.length s)%nat.
Proof.
  assert (forall n s, (String.length s <= n)%nat ->
    (String.length (GoStrings.TrimLeftSpace s) <= String.length s)%nat) as H.
  { clear. induction n as [|n IH]; intros s Hn.
    - destruct s; simpl in *; lia.
    - destruct s as [|b1 t1]; [simpl; lia|]. rewrite TrimLeftSpace_cons.
      simpl in Hn. destruct (GoStrings.asciiSpace b1).
      { specialize (IH t1). simpl. lia. }
      destruct t1 as [|b2 t2]; [lia|]. simpl in Hn.
      destruct (GoStrings.space2 b1 b2).
      { specialize (IH t2). simpl. lia. }
      destruct t2 as [|b3 t3]; [lia|]. simpl in Hn.
      destruct (GoStrings.space3 b1 b2 b3); [|lia].
      specialize (IH t3). simpl. lia. }
  by apply (H (String.length s)).
Qed.

Lemma length_trimRevSpace s :
  (String.length (GoStrings.trimRevSpace s) <= String.length s)%nat.
Proof.
  assert (forall n s, (String.length s <= n)%nat ->
    (String.length (GoStrings.trimRevSpace s) <= String.length s)%nat) as H.
  { clear. induction n as [|n IH]; intros s Hn.
    - destruct s; simpl in *; lia.
    - destruct s as [|b1 t1]; [simpl; lia|]. rewrite trimRevSpace_cons.
      simpl in Hn. destruct (GoStrings.asciiSpace b1).
      { specialize (IH t1). simpl. lia. }
      destruct t1 as [|b2 t2]; [lia|]. simpl in Hn.
      destruct (GoStrings.space2 b2 b1).
      { specialize (IH t2). simpl. lia. }
      destruct t2 as [|b3 t3]; [lia|]. simpl in Hn.
      destruct (GoStrings.space3 b3 b2 b1); [|lia].
      specialize (IH t3). simpl. lia. }
  by apply (H (String.length s)).
Qed.

Lemma length_TrimSpace s :
  (String.length (GoStrings.TrimSpace s) <= String.length s)%nat.
Proof.
  unfold GoStrings.TrimSpace, GoStrings.TrimRightSpace.
  rewrite length_rev. etrans; [apply length_trimRevSpace|].
  rewrite length_rev. apply length_TrimLeftSpace.
Qed.

Lemma length_TrimPrefix s p :
  (String.length (GoStrings.TrimPrefix s p) <= String.length s)%nat.
Proof.
  destruct s as [|c s]; simpl; [lia|]. destruct (Ascii.eqb c p); simpl; lia.
Qed.

Lemma length_drop n s :
  String.length (GoStrings.drop n s) = (String.length s - n)%nat.
Proof.
  revert s. induction n as [|n IH]; intros s; simpl; [lia|].
  destruct s; simpl; [done|apply IH].
Qed.

Lemma Index_bound s sep :
  -1 <= GoStrings.Index s sep < Z.of_nat (String.length s)
  \/ (GoStrings.Index s sep = -1 /\ s = EmptyString).
Proof.
  induction s as [|c s IH]; simpl; [by right|]. left.
  destruct (Ascii.eqb c sep); [lia|].
  destruct (Z.ltb_spec (GoStrings.Index s sep) 0); [lia|].
  destruct IH as [?|[? _]]; lia.
Qed.

Lemma parseAttrs_S fuel c s attrs :
  parseAttrs (S fuel) (String c s) attrs =
  match GoStrings.TrimSpace (String c s) with
  | EmptyString => attrs
  | _ => parseTurn fuel (GoStrings.TrimSpace (String c s)) attrs
  end.
Proof. reflexivity. Qed.

Lemma parseAttrs_fuel f1 f2 s attrs :
  (String.length s < f1)%nat -> (String.length s < f2)%nat ->
  parseAttrs f1 s attrs = parseAttrs f2 s attrs.
Proof.
  revert f2 s attrs. induction f1 as [|f1 IH]; intros f2 s attrs H1 H2; [lia|].
  destruct f2 as [|f2]; [lia|].
  destruct s as [|c0 s0]; [done|]. rewrite !parseAttrs_S.
  pose proof (length_TrimSpace (String c0 s0)) as Htrim.
  destruct (GoStrings.TrimSpace (String c0 s0)) as [|c s] eqn:Et; [done|].
  unfold parseTurn.
  pose proof (firstMatch_good (String c s)) as Hm.
  destruct (firstMatch patterns (String c s)) as [[[k v] rest]|].
  - destruct Hm as [_ Hl]. pose proof (length_TrimPrefix rest ",").
    cbn [String.length] in *. apply IH; lia.
  - destruct (Z.ltb_spec 0 (GoStrings.Index (String c s) ",")); [|done].
    apply IH; rewrite length_drop; cbn [String.length] in *; lia.
Qed.

(** A turn after which the loop goes on has shortened [remaining]. *)
Lemma attrLoopTurn_shorter s attrs s' attrs' :
  attrLoopTurn s attrs = inr (s', attrs') ->
  (String.length s' < String.length s)%nat.
Proof.
  unfold attrLoopTurn. destruct s as [|c0 s0]; [done|].
  pose proof (length_TrimSpace (String c0 s0)) as Htrim.
  destruct (GoStrings.TrimSpace (String c0 s0)) as [|c s] eqn:Et; [done|].
  pose proof (firstMatch_good (String c s)) as Hm.
  destruct (firstMatch patterns (String c s)) as [[[k v] rest]|].
  - destruct Hm as [_ Hl]. pose proof (length_TrimPrefix rest ",").
    intros [= <- _]. cbn [String.length] in *. lia.
  - generalize (GoStrings.Index (String c s) ","). intros idx.
    destruct (Z.ltb_spec 0 idx); [|done].
    intros [= <- _]. rewrite length_drop. cbn [String.length] in *. lia.
Qed.

(** [parseAttrs] follows the turns of the loop. *)
Lemma parseAttrs_turn fuel s attrs :
  parseAttrs (S fuel) s attrs =
  match attrLoopTurn s attrs with
  | inl result => result
  | inr (s', attrs') => parseAttrs fuel s' attrs'
  end.
Proof.
  destruct s as [|c0 s0]; [done|]. rewrite parseAttrs_S. unfold attrLoopTurn.
  destruct (GoStrings.TrimSpace (String c0 s0)) as [|c s]; [done|].
  unfold parseTurn.
  destruct (firstMatch patterns (String c s)) as [[[k v] rest]|]; [done|].
  by destruct (0 <? GoStrings.Index (String c s) ",").
Qed.

Lemma attrLoop_parseAttrs turns fuel s attrs :
  (String.length s < turns)%nat -> (String.length s < fuel)%nat ->
  attrLoop turns s attrs = Some (parseAttrs fuel s attrs).
Proof.
  revert fuel s attrs.
  induction turns as [|turns IH]; intros fuel s attrs Ht Hf; [lia|].
  destruct fuel as [|fuel]; [lia|].
  rewrite parseAttrs_turn. cbn [attrLoop].
  pose proof (attrLoopTurn_shorter s attrs) as Hshort.
  destruct (attrLoopTurn s attrs) as [result|[s' attrs']]; [done|].
  specialize (Hshort s' attrs' eq_refl). apply IH; lia.
Qed.

(** X21. The loop of [ParseAttributeList] terminates: a turn after which
    the loop goes on has shortened the remaining string, so that the loop
    ends of itself within as many turns as the string has bytes, and one
    more; what it returns then is what [parseAttrs] computes with any
    bound above the length of the string. *)
Theorem parseAttrs_terminates (fuel : nat) (s : string)
    (attrs : gmap string string) :
  (String.length s < fuel)%nat ->
  (forall s' attrs',
     attrLoopTurn s attrs = inr (s', attrs') ->
     (String.length s' < String.length s)%nat)
  /\ attrLoop (S (String.length s)) s attrs = Some (parseAttrs fuel s attrs).
Proof.
  intros Hf. split.
  - apply attrLoopTurn_shorter.
  - apply attrLoop_parseAttrs; lia.
Qed.

Lemma parseAttrs_keys fuel s attrs :
  (forall k, is_Some (attrs !! k) -> wordKey k) ->
  forall k, is_Some (parseAttrs fuel s attrs !! k) -> wordKey k.
Proof.
  revert s attrs. induction fuel as [|fuel IH]; intros s attrs Hattrs; [done|].
  destruct s as [|c0 s0]; [done|]. rewrite parseAttrs_S.
  destruct (GoStrings.TrimSpace (String c0 s0)) as [|c s]; [done|].
  unfold parseTurn.
  pose proof (firstMatch_good (String c s)) as Hm.
  destruct (firstMatch patterns (String c s)) as [[[k v] rest]|].
  - destruct Hm as [Hk _]. apply IH. intros k' Hk'.
    destruct (decide (k = k')) as [<-|Hne]; [done|].
    rewrite lookup_insert_ne in Hk' by done. by apply Hattrs.
  - destruct (0 <? _); [by apply IH|done].
Qed.

(** X22. Every key that [ParseAttributeList] returns is one byte of
    [[0-9A-Za-z_]] or more: an attribute whose name has a hyphen, such as
    FRAME-RATE or GROUP-ID, is never returned. *)
Theorem ParseAttributeList_keys_are_words (s k : string) :
  is_Some (ParseAttributeList s !! k) ->
  k <> EmptyString /\ allBytes isWord k = true
  /\ allBytes (fun c => negb (Ascii.eqb c "-")) k = true.
Proof.
  intros Hk.
  assert (forall k0, is_Some ((∅ : gmap string string) !! k0) -> wordKey k0)
    as Hempty.
  { intros k0. rewrite lookup_empty. by intros ?%is_Some_None. }
  destruct (parseAttrs_keys _ s ∅ Hempty k Hk) as [Hne Hw].
  split; [done|]. split; [done|].
  apply (allBytes_impl isWord); [|done].
  intros c Hc. apply negb_true_iff, Ascii.eqb_neq. intros ->. by vm_compute in Hc.
Qed.

(** *** Quoted attributes *)

(** Appends to the right, bytes in front. *)
Ltac norm_app :=
  repeat (rewrite app_assoc || rewrite app_cons || rewrite app_nil_l).

Lemma rev_app_app a b c :
  String.rev_app (a +:+ b) c = String.rev_app b (String.rev_app a c).
Proof.
  revert c. induction a as [|x a IH]; intros c; [done|].
  rewrite app_cons. simpl. apply IH.
Qed.

Lemma rev_app_spec a c : String.rev_app a c = String.rev a +:+ c.
Proof.
  unfold String.rev. revert c. induction a as [|x a IH]; intros c; [done|].
  simpl. rewrite (IH (String x c)), (IH (String x EmptyString)).
  by rewrite app_assoc.
Qed.

Lemma rev_snoc a x :
  String.rev (a +:+ String x EmptyString) = String x (String.rev a).
Proof. unfold String.rev. by rewrite rev_app_app. Qed.

Lemma rev_cons x a :
  String.rev (String x a) = String.rev a +:+ String x EmptyString.
Proof. unfold String.rev. simpl. apply rev_app_spec. Qed.

Lemma rev_involutive a : String.rev (String.rev a) = a.
Proof.
  induction a as [|x a IH]; [done|]. by rewrite rev_cons, rev_snoc, IH.
Qed.

Lemma plainByte_left c t :
  plainByte c = true ->
  GoStrings.TrimLeftSpace (String c t) = String c t.
Proof.
  unfold plainByte. intros [Hs Hc]%andb_true_iff.
  apply negb_true_iff in Hs. apply N.ltb_lt in Hc.
  rewrite TrimLeftSpace_cons, Hs.
  assert (forall b, GoStrings.space2 c b = false) as H2.
  { intros b. unfold GoStrings.space2.
    destruct (N.eqb_spec (code c) 194); [lia|done]. }
  assert (forall b b', GoStrings.space3 c b b' = false) as H3.
  { intros b b'. unfold GoStrings.space3.
    destruct (N.eqb_spec (code c) 225); [lia|].
    destruct (N.eqb_spec (code c) 226); [lia|].
    destruct (N.eqb_spec (code c) 227); [lia|]. done. }
  destruct t as [|b2 [|b3 t3]]; by rewrite ?H2, ?H3.
Qed.

Lemma plainByte_right a c :
  plainByte c = true ->
  GoStrings.TrimRightSpace (a +:+ String c EmptyString)
  = a +:+ String c EmptyString.
Proof.
  unfold plainByte. intros [Hs Hc]%andb_true_iff.
  apply negb_true_iff in Hs. apply N.ltb_lt in Hc.
  unfold GoStrings.TrimRightSpace. rewrite rev_snoc.
  rewrite trimRevSpace_cons, Hs.
  assert (forall b, GoStrings.space2 b c = false) as H2.
  { intros b. unfold GoStrings.space2.
    destruct (N.eqb_spec (code c) 133); [lia|].
    destruct (N.eqb_spec (code c) 160); [lia|]. by rewrite andb_false_r. }
  assert (forall b b', GoStrings.space3 b b' c = false) as H3.
  { intros b b'. unfold GoStrings.space3, char_in.
    destruct (N.eqb_spec (code c) 128); [lia|].
    destruct (N.eqb_spec (code c) 159); [lia|].
    destruct (N.eqb_spec (code c) 168); [lia|].
    destruct (N.eqb_spec (code c) 169); [lia|].
    destruct (N.eqb_spec (code c) 175); [lia|].
    destruct (N.leb_spec 128 (code c)); [lia|].
    by rewrite !andb_false_r. }
  assert (GoStrings.trimRevSpace (String c (String.rev a))
          = String c (String.rev a)) as Hid.
  { rewrite trimRevSpace_cons, Hs.
    destruct (String.rev a) as [|b2 [|b3 t3]]; by rewrite ?H2, ?H3. }
  rewrite trimRevSpace_cons, Hs in Hid. rewrite Hid.
  by rewrite <- rev_snoc, rev_involutive.
Qed.

Lemma TrimSpace_plain c m d :
  plainByte c = true -> plainByte d = true ->
  GoStrings.TrimSpace (String c m +:+ String d EmptyString)
  = String c m +:+ String d EmptyString.
Proof.
  intros Hc Hd. unfold GoStrings.TrimSpace.
  rewrite app_cons, (plainByte_left _ _ Hc), <- app_cons.
  by apply plainByte_right.
Qed.

Lemma span_app p a b :
  allBytes p a = true ->
  match b with String c _ => p c = false | EmptyString => True end ->
  span p (a +:+ b) = (a, b).
Proof.
  intros Ha Hb. induction a as [|x a IH].
  - rewrite app_nil_l. destruct b as [|c b]; [done|]. simpl. by rewrite Hb.
  - simpl in Ha. apply andb_true_iff in Ha as [Hx Ha].
    rewrite app_cons. simpl. by rewrite Hx, (IH Ha).
Qed.

Lemma isWord_plainByte c : isWord c = true -> plainByte c = true.
Proof.
  unfold isWord, isDigit, isUpper, isLower, char_in, plainByte,
    GoStrings.asciiSpace, char_in.
  intros H. apply andb_true_iff. split.
  - apply negb_true_iff, orb_false_iff. split.
    + apply andb_false_iff. right. apply N.leb_gt.
      repeat (apply orb_true_iff in H as [H|H]);
        try (apply andb_true_iff in H as [?%N.leb_le ?%N.leb_le]);
        try (apply N.eqb_eq in H); lia.
    + apply N.eqb_neq.
      repeat (apply orb_true_iff in H as [H|H]);
        try (apply andb_true_iff in H as [?%N.leb_le ?%N.leb_le]);
        try (apply N.eqb_eq in H); lia.
  - apply N.ltb_lt.
    repeat (apply orb_true_iff in H as [H|H]);
      try (apply andb_true_iff in H as [?%N.leb_le ?%N.leb_le]);
      try (apply N.eqb_eq in H); lia.
Qed.

(** The quoted pattern matches a quoted attribute, whatever follows. *)
Lemma firstMatch_quotedAttr k v tail :
  wordKey k -> allBytes notQuote v = true ->
  firstMatch patterns (quotedAttr (k, v) +:+ tail) = Some (k, v, tail).
Proof.
  intros [Hne Hw] Hv. unfold patterns, firstMatch, quotedAttr. simpl fst. simpl snd.
  assert (reQuoted ((k +:+ "=" +:+ String quote v +:+ String quote EmptyString)
                    +:+ tail) = Some (k, v, tail)) as ->; [|done].
  unfold reQuoted, matchKey, span1.
  rewrite !app_assoc.
  change ("=" +:+ (String quote v +:+ String quote EmptyString +:+ tail))
    with (String "=" (String quote (v +:+ String quote tail))).
  rewrite (span_app isWord k _ Hw) by done.
  destruct k as [|c k]; [done|].
  change (Ascii.eqb "=" "=") with true. cbv iota.
  change (Ascii.eqb quote quote) with true. cbv iota.
  rewrite (span_app (fun c => negb (Ascii.eqb c quote)) v (String quote tail) Hv);
    [done|].
  by vm_compute.
Qed.

Lemma Join_cons x y l :
  GoStrings.Join (x :: y :: l) "," = x +:+ String "," (GoStrings.Join (y :: l) ",").
Proof. reflexivity. Qed.

Lemma Join_cons2 x l y l' :
  l = y :: l' ->
  GoStrings.Join (x :: l) "," = x +:+ String "," (GoStrings.Join l ",").
Proof. by intros ->. Qed.

Lemma Join_quoted_shape kv l :
  wordKey (fst kv) ->
  Forall (fun kv => wordKey (fst kv)) l ->
  exists c m,
    GoStrings.Join (quotedAttr <$> kv :: l) ","
    = String c m +:+ String quote EmptyString
    /\ plainByte c = true.
Proof.
  intros Hkv Hl. revert kv Hkv.
  induction Hl as [|kv2 l Hkv2 _ IH]; intros [k v] [Hne Hw];
    cbn [fst snd] in *.
  - destruct k as [|c k]; [done|]. cbn [allBytes] in Hw.
    apply andb_true_iff in Hw as [Hc _].
    exists c, (k +:+ "=" +:+ String quote v). split.
    + change (GoStrings.Join (quotedAttr <$> [(String c k, v)]) ",")
        with (quotedAttr (String c k, v)).
      unfold quotedAttr. cbn [fst snd]. by norm_app.
    + by apply isWord_plainByte.
  - destruct (IH kv2 Hkv2) as (c2 & m2 & Hj & _).
    destruct k as [|c k]; [done|]. cbn [allBytes] in Hw.
    apply andb_true_iff in Hw as [Hc _].
    exists c, (k +:+ "=" +:+ String quote v +:+ String quote EmptyString
               +:+ String "," (String c2 m2)). split.
    + rewrite fmap_cons.
      rewrite (Join_cons2 _ _ (quotedAttr kv2) (quotedAttr <$> l))
        by apply fmap_cons.
      rewrite Hj. unfold quotedAttr. cbn [fst snd].
      by norm_app.
    + by apply isWord_plainByte.
Qed.

Lemma parseAttrs_quoted_list l attrs fuel :
  Forall (fun kv => wordKey (fst kv) /\ allBytes notQuote (snd kv) = true) l ->
  (String.length (GoStrings.Join (quotedAttr <$> l) ",") < fuel)%nat ->
  parseAttrs fuel (GoStrings.Join (quotedAttr <$> l) ",") attrs
  = foldl (fun m kv => <[fst kv := snd kv]> m) attrs l.
Proof.
  intros Hl. revert attrs fuel.
  induction Hl as [|[k v] l [Hk Hv] Hl IH]; intros attrs fuel Hf.
  - destruct fuel; [lia|]. done.
  - destruct fuel as [|fuel]; [lia|].
    assert (Forall (fun kv => wordKey (fst kv)) l) as Hkeys.
    { eapply Forall_impl; [exact Hl|]. by intros ? [? _]. }
    destruct (Join_quoted_shape (k, v) l Hk Hkeys) as (c & m & Hshape & Hc).
    assert (GoStrings.TrimSpace (GoStrings.Join (quotedAttr <$> (k, v) :: l) ",")
            = GoStrings.Join (quotedAttr <$> (k, v) :: l) ",") as Htrim.
    { rewrite Hshape. by apply TrimSpace_plain. }
    assert (exists c' m', GoStrings.Join (quotedAttr <$> (k, v) :: l) ","
                          = String c' m') as (c' & m' & Hcons).
    { rewrite Hshape, app_cons. by eexists _, _. }
    rewrite Hcons, parseAttrs_S, <- Hcons, Htrim, Hcons, <- Hcons.
    unfold parseTurn. simpl foldl.
    destruct l as [|kv2 l'].
    + change (GoStrings.Join (quotedAttr <$> [(k, v)]) ",")
        with (quotedAttr (k, v)).
      rewrite <- (app_nil_r (quotedAttr (k, v))).
      rewrite (firstMatch_quotedAttr k v EmptyString Hk Hv). simpl.
      by destruct fuel.
    + rewrite fmap_cons in *.
      rewrite (Join_cons2 _ _ (quotedAttr kv2) (quotedAttr <$> l')) in *
        by apply fmap_cons.
      rewrite (firstMatch_quotedAttr k v _ Hk Hv). simpl GoStrings.TrimPrefix.
      apply IH. rewrite length_string_app in Hf.
      cbn [String.length] in Hf.
      change (quotedAttr kv2 :: (quotedAttr <$> l')) with (quotedAttr <$> kv2 :: l').
      lia.
Qed.

(** X23. Quoted attributes are recovered: of the attributes k="v" joined
    by commas, each key being of word bytes and no value holding a double
    quote, [ParseAttributeList] returns every one, a later attribute
    replacing an earlier one of the same key; the values may hold commas,
    slashes and spaces. *)
Theorem ParseAttributeList_quoted_list (l : list (string * string)) :
  Forall (fun kv => wordKey (fst kv) /\ allBytes notQuote (snd kv) = true) l ->
  ParseAttributeList (GoStrings.Join (quotedAttr <$> l) ",") = attrsOfList l.
Proof.
  intros Hl. unfold ParseAttributeList, attrsOfList.
  apply parseAttrs_quoted_list; [done|lia].
Qed.

Lemma attrsOfList_list_to_map (l : list (string * string)) :
  NoDup l.*1 -> attrsOfList l = list_to_map l.
Proof.
  unfold attrsOfList.
  assert (forall m : gmap string string,
            NoDup l.*1 ->
            foldl (fun m kv => <[fst kv := snd kv]> m) m l = list_to_map l ∪ m)
    as H.
  { induction l as [|[k v] l IH]; intros m Hnd; simpl.
    - by rewrite (left_id_L ∅ (∪)).
    - apply NoDup_cons in Hnd as [Hk Hnd]. rewrite (IH _ Hnd).
      rewrite <- insert_union_l. rewrite insert_union_r; [done|].
      by apply not_elem_of_list_to_map_1. }
  intros Hnd. rewrite (H ∅ Hnd). by rewrite (right_id_L ∅ (∪)).
Qed.

(** X24. An attribute list survives writing and parsing when every key is
    of word bytes and every value needs quoting and holds no double
    quote, in whatever order the map is written. *)
Theorem ParseAttributeList_of_String
    (rangeOrder : forall A : Type, gmap string A -> list (string * A))
    (attrs : gmap string string) :
  (forall (A : Type) (m : gmap string A), rangeOrder A m ≡ₚ map_to_list m) ->
  (forall k v, attrs !! k = Some v ->
     wordKey k /\ needsQuoting v = true /\ allBytes notQuote v = true) ->
  ParseAttributeList (AttributeList_String rangeOrder attrs) = attrs.
Proof.
  intros Hperm Hattrs. unfold AttributeList_String.
  assert (Forall (fun kv => wordKey (fst kv) /\ needsQuoting (snd kv) = true
                            /\ allBytes notQuote (snd kv) = true)
            (rangeOrder string attrs)) as Hall.
  { apply Forall_forall. intros [k v] Hin. rewrite (Hperm _ attrs) in Hin.
    apply elem_of_map_to_list in Hin. by apply Hattrs. }
  assert (formatAttr <$> rangeOrder string attrs
          = quotedAttr <$> rangeOrder string attrs) as ->.
  { apply Forall_fmap_ext_1. eapply Forall_impl; [exact Hall|].
    intros [k v] (_ & Hq & _). unfold formatAttr, quotedAttr. simpl in *.
    by rewrite Hq. }
  unfold ParseAttributeList. rewrite parseAttrs_quoted_list; [| |lia].
  - fold (attrsOfList (rangeOrder string attrs)).
    rewrite attrsOfList_list_to_map.
    + rewrite (list_to_map_proper _ (map_to_list attrs)).
      * apply list_to_map_to_list.
      * rewrite (Hperm _ attrs). apply NoDup_fst_map_to_list.
      * apply Hperm.
    + rewrite (Hperm _ attrs). apply NoDup_fst_map_to_list.
  - eapply Forall_impl; [exact Hall|]. by intros ? (? & _ & ?).
Qed.

(** ** Properties of the line classifier *)

Lemma span_stop p s a c b : span p s = (a, String c b) -> p c = false.
Proof.
  revert a. induction s as [|x s IH]; intros a; simpl; [done|].
  destruct (p x) eqn:Hx.
  - destruct (span p s) as [a' b'] eqn:E. intros [= <- ->]. by apply (IH a').
  - by intros [= <- <- <-].
Qed.

Lemma noLF_spec s : noLF s = true \/ noLF s = false.
Proof. destruct (noLF s); auto. Qed.

(** X25. The classification of a line loses nothing but the spaces
    around it and the colon of a tag without a value: a blank line gives no
    entry; a tag entry has a name that starts with EXT and holds no
    colon, and the line is [#], the name and, after a colon, the value; a
    comment entry holds the text after [#]; a URI entry holds the line. *)
Theorem ParsePlaylistEntry_keeps_the_line (line : string) :
  let trimmed := GoStrings.TrimSpace line in
  match ParsePlaylistEntry line with
  | None => trimmed = EmptyString
  | Some e =>
      trimmed <> EmptyString
      /\ match Type_ e with
         | EntryTypeTag =>
             (exists name, Tag e = "EXT" +:+ name
                           /\ allBytes (fun c => negb (Ascii.eqb c ":")) name = true)
             /\ (trimmed = "#" +:+ Tag e +:+ ":" +:+ Value e
                 \/ (trimmed = "#" +:+ Tag e /\ Value e = EmptyString))
             /\ URI e = EmptyString
         | EntryTypeComment =>
             trimmed = "#" +:+ Value e /\ Tag e = EmptyString
             /\ URI e = EmptyString
         | EntryTypeURI =>
             URI e = trimmed /\ Tag e = EmptyString /\ Value e = EmptyString
         end
  end.
Proof.
  intros trimmed. unfold ParsePlaylistEntry. fold trimmed.
  destruct trimmed as [|c t] eqn:Et; [done|].
  destruct (reTag (String c t)) as [[name value]|] eqn:Htag.
  - split; [done|]. simpl. unfold reTag in Htag.
    destruct c as [[] [] [] [] [] [] [] []]; try done.
    destruct t as [|[[] [] [] [] [] [] [] []] t]; try done.
    destruct t as [|[[] [] [] [] [] [] [] []] t]; try done.
    destruct t as [|[[] [] [] [] [] [] [] []] t]; try done.
    destruct (span _ t) as [nm rest] eqn:Hs.
    destruct (span_spec _ _ _ _ Hs) as (-> & Hnm & _).
    destruct rest as [|colon v].
    + injection Htag as <- <-. split; [by exists nm|]. split; [|done].
      right. split; [|done]. by rewrite app_nil_r.
    + destruct (noLF v); [|done]. injection Htag as <- <-.
      split; [by exists nm|]. split; [|done]. left.
      apply span_stop in Hs. apply negb_false_iff, Ascii.eqb_eq in Hs as ->.
      by norm_app.
  - destruct (reComment (String c t)) as [text|] eqn:Hc.
    + split; [done|]. simpl. unfold reComment in Hc.
      destruct (Ascii.eqb_spec c "#") as [->|Hne].
      * destruct (noLF t); [|done]. by injection Hc as <-.
      * destruct c as [[] [] [] [] [] [] [] []]; done.
    + done.
Qed.

Lemma Contains_allBytes s sep :
  GoStrings.Contains s sep
  = negb (allBytes (fun c => negb (Ascii.eqb c sep)) s).
Proof.
  unfold GoStrings.Contains. induction s as [|c s IH]; [done|]. simpl.
  destruct (Ascii.eqb c sep); [done|]. simpl. rewrite <- IH.
  destruct (Z.ltb_spec (GoStrings.Index s sep) 0).
  - destruct (Z.leb_spec 0 (GoStrings.Index s sep)); [lia|done].
  - destruct (Z.leb_spec 0 (GoStrings.Index s sep)); [|lia].
    destruct (Z.leb_spec 0 (GoStrings.Index s sep + 1)); [done|lia].
Qed.

Lemma noLF_allBytes s :
  noLF s = allBytes (fun c => negb (Ascii.eqb c LF)) s.
Proof. unfold noLF. by rewrite Contains_allBytes, negb_involutive. Qed.

Lemma prefix_empty s : String.prefix EmptyString s = true.
Proof. by destruct s. Qed.

Ltac solve_type :=
  intros [= <-]; cbn [Type_ String.prefix];
  repeat match goal with
    | |- context [ascii_dec ?a ?b] => destruct (ascii_dec a b); try done
    end;
  rewrite ?prefix_empty; try done.

(** X26. A line without a newline, as the scanner gives them, is
    classified by the way it starts, once trimmed: a tag when it starts
    with #EXT, otherwise a comment when it starts with #, otherwise a URI
    line. *)
Theorem ParsePlaylistEntry_by_prefix (line : string) (e : PlaylistEntry) :
  noLF (GoStrings.TrimSpace line) = true ->
  ParsePlaylistEntry line = Some e ->
  Type_ e =
  if String.prefix "#EXT" (GoStrings.TrimSpace line) then EntryTypeTag
  else if String.prefix "#" (GoStrings.TrimSpace line) then EntryTypeComment
  else EntryTypeURI.
Proof.
  unfold ParsePlaylistEntry.
  destruct (GoStrings.TrimSpace line) as [|c t]; [done|]. intros Hlf.
  assert (forall a b, noLF (String a b) = true -> noLF b = true) as Htail.
  { intros a b. rewrite !noLF_allBytes. simpl. by intros [_ ?]%andb_true_iff. }
  unfold reTag, reComment.
  destruct (Ascii.eqb_spec c "#") as [->|Hc].
  - rewrite (Htail _ _ Hlf).
    destruct t as [|x1 t]; [solve_type|].
    destruct (Ascii.eqb_spec x1 "E") as [->|H1];
      [|destruct x1 as [[] [] [] [] [] [] [] []]; try done; solve_type].
    destruct t as [|x2 t]; [solve_type|].
    destruct (Ascii.eqb_spec x2 "X") as [->|H2];
      [|destruct x2 as [[] [] [] [] [] [] [] []]; try done; solve_type].
    destruct t as [|x3 t]; [solve_type|].
    destruct (Ascii.eqb_spec x3 "T") as [->|H3];
      [|destruct x3 as [[] [] [] [] [] [] [] []]; try done; solve_type].
    destruct (span _ t) as [nm rest] eqn:Hs.
    destruct (span_spec _ _ _ _ Hs) as (-> & _ & _).
    destruct rest as [|colon v]; [solve_type|].
    assert (noLF v = true) as ->; [|solve_type].
    do 4 apply Htail in Hlf. rewrite noLF_allBytes, allBytes_app in Hlf.
    apply andb_true_iff in Hlf as [_ Hlf]. simpl in Hlf.
    apply andb_true_iff in Hlf as [_ Hlf]. by rewrite noLF_allBytes.
  - assert (String.prefix "#EXT" (String c t) = false) as ->.
    { cbn [String.prefix]. destruct (ascii_dec "#" c) as [E|]; [|done].
      by destruct Hc. }
    assert (String.prefix "#" (String c t) = false) as ->.
    { cbn [String.prefix]. destruct (ascii_dec "#" c) as [E|]; [|done].
      by destruct Hc. }
    destruct c as [[] [] [] [] [] [] [] []]; try done; solve_type.
Qed.

(** *** Examples of the properties of the parsers *)

Lemma parseAttrs_terminates_witness :
  (forall s' attrs',
     attrLoopTurn "BANDWIDTH=1280000,CODECS=avc1" ∅ = inr (s', attrs') ->
     (String.length s' < String.length "BANDWIDTH=1280000,CODECS=avc1")%nat)
  /\ attrLoop (S (String.length "BANDWIDTH=1280000,CODECS=avc1"))
       "BANDWIDTH=1280000,CODECS=avc1" ∅
     = Some (ParseAttributeList "BANDWIDTH=1280000,CODECS=avc1").
Proof.
  apply (parseAttrs_terminates
           (S (String.length "BANDWIDTH=1280000,CODECS=avc1"))
           "BANDWIDTH=1280000,CODECS=avc1" ∅).
  apply Nat.lt_succ_diag_r.
Defined.

Lemma ParseAttributeList_keys_are_words_witness :
  "BANDWIDTH" <> EmptyString /\ allBytes isWord "BANDWIDTH" = true
  /\ allBytes (fun c => negb (Ascii.eqb c "-")) "BANDWIDTH" = true.
Proof.
  apply (ParseAttributeList_keys_are_words "BANDWIDTH=1280000,FRAME-RATE=24").
  exists "1280000". by vm_compute.
Defined.

Lemma ParseAttributeList_quoted_list_witness :
  ParseAttributeList
    (GoStrings.Join (quotedAttr <$> [("URI", "a, b/c.mp4"); ("BYTERANGE", "652@0")]) ",")
  = attrsOfList [("URI", "a, b/c.mp4"); ("BYTERANGE", "652@0")].
Proof.
  apply ParseAttributeList_quoted_list.
  repeat constructor; by vm_compute.
Defined.

Lemma ParseAttributeList_of_String_witness :
  ParseAttributeList
    (AttributeList_String sampleOrder
       (<["URI" := "a/b.mp4"]> (<["BYTERANGE" := "652@0"]> ∅)))
  = <["URI" := "a/b.mp4"]> (<["BYTERANGE" := "652@0"]> ∅).
Proof.
  apply ParseAttributeList_of_String.
  - intros A m. reflexivity.
  - intros k v [[<- <-]|[_ [[<- <-]|[_ H]]%lookup_insert_Some]]%lookup_insert_Some.
    + repeat split; by vm_compute.
    + repeat split; by vm_compute.
    + by rewrite lookup_empty in H.
Defined.

Lemma ParsePlaylistEntry_by_prefix_witness :
  Type_ (tagEntry "EXTINF" "9.5,") = EntryTypeTag.
Proof.
  apply (ParsePlaylistEntry_by_prefix "  #EXTINF:9.5,  " (tagEntry "EXTINF" "9.5,"));
    by vm_compute.
Defined.

(** ** Properties of the media-playlist encoder and of [Encode] *)

Section MediaEncoderProperties.

Variable rangeOrder : forall A : Type, gmap string A -> list (string * A).
Variable Sprint_other : Any -> string.
Variable float64ToInt : float -> Z.
Variable Clip_Duration : Clip -> option RationalTime.
Variable ToSeconds : RationalTime -> float.
Variable Sprintf_6f : float -> string.

(** X16. A byterange survives its metadata form: [ByterangeFromMetadata]
    reads back what [ToMetadata] writes; from a map without the keys
    [count] and [offset], such as the [byte_count] and [byte_offset] map
    of the decoder, it reads a byterange of zeros. *)
Theorem ByterangeFromMetadata_ToMetadata (b : Byterange) :
  ByterangeFromMetadata float64ToInt (ToMetadata b) = b
  /\ ByterangeFromMetadata float64ToInt (byterangeMetadata b)
     = {| Count := 0; Offset := 0 |}.
Proof.
  destruct b as [count offset].
  unfold ByterangeFromMetadata, ToMetadata, byterangeMetadata.
  split; by simplify_map_eq.
Qed.

Lemma Encode_one_track (t : Timeline) (track : Track) :
  Tracks t = [ChildTrack track] -> masterForced t = false ->
  Encode rangeOrder float64ToInt Clip_Duration ToSeconds Sprintf_6f
    Sprint_other t
  = inr (encodeMediaPlaylist rangeOrder float64ToInt Clip_Duration ToSeconds
           Sprintf_6f track).
Proof.
  intros Ht Hm. unfold Encode. fold (masterForced t). by rewrite Ht, Hm.
Qed.

(** X17. [Encode] fails exactly on a timeline without tracks and on a
    timeline whose only child is not a track, unless a master playlist is
    forced; it writes a media playlist for one track without that flag,
    and a master playlist in every other case. *)
Theorem Encode_cases (t : Timeline) :
  let Encode := Encode rangeOrder float64ToInt Clip_Duration ToSeconds
                  Sprintf_6f Sprint_other in
  (Encode t = inl ErrNoTracks <-> Tracks t = [])
  /\ (Encode t = inl ErrExpectedTrack
      <-> Tracks t = [ChildOther] /\ masterForced t = false)
  /\ (forall track,
        Tracks t = [ChildTrack track] -> masterForced t = false ->
        Encode t = inr (encodeMediaPlaylist rangeOrder float64ToInt
                          Clip_Duration ToSeconds Sprintf_6f track))
  /\ ((1 < length (Tracks t))%nat
      \/ (Tracks t <> [] /\ masterForced t = true) ->
      Encode t = inr (encodeMasterPlaylist rangeOrder Sprint_other
                        float64ToInt t)).
Proof.
  intros Enc. unfold Enc, Encode. fold (masterForced t).
  destruct (Tracks t) as [|child [|child2 others]].
  - split; [done|]. split; [split; [done|by intros [? _]]|].
    split; [done|]. simpl. intros [?|[? _]]; [lia|done].
  - destruct (masterForced t).
    + split; [done|]. split; [split; [done|by intros [_ ?]]|].
      split; [done|]. done.
    + destruct child.
      * split; [done|]. split; [split; [done|by intros [? _]]|].
        split; [by intros track [= <-] _|]. simpl. intros [?|[_ ?]]; [lia|done].
      * split; [done|]. split; [done|].
        split; [done|]. simpl. intros [?|[_ ?]]; [lia|done].
  - split; [done|]. split; [split; [by destruct (masterForced t)|by intros [? _]]|].
    split; [done|]. intros _. by destruct (masterForced t).
Qed.

(** X18. Duplicate suppression of EXT-X-MAP: once the map of a clip has
    been written, or skipped as equal to the last one, the same map on
    the next clip writes nothing. *)
Theorem mapTag_written_once (clipHLSMetadata : gmap string Any)
    (last : string * string) :
  let mapTag := mapTag rangeOrder float64ToInt in
  mapTag clipHLSMetadata (snd (mapTag clipHLSMetadata last))
  = (EmptyString, snd (mapTag clipHLSMetadata last)).
Proof.
  intros mt. unfold mt, mapTag.
  destruct (clipHLSMetadata !! "map") as [[| | | | | | |mapData]|]; try done.
  destruct last as [lastURI lastBr]. cbn [fst snd].
  match goal with |- context [String.eqb ?x lastURI] => set (mu := x) end.
  match goal with |- context [String.eqb ?x lastBr] => set (mb := x) end.
  destruct (String.eqb mu lastURI) eqn:Hu, (String.eqb mb lastBr) eqn:Hb;
    cbn [negb orb fst snd]; rewrite ?String.eqb_refl, ?Hu, ?Hb; done.
Qed.

(** X19. Children of a track that are not clips are skipped: the segments
    are written as for the clips alone. *)
Theorem writeSegments_skips_other_items (children : list Item)
    (last : string * string) :
  let writeSegments :=
    writeSegments rangeOrder float64ToInt Clip_Duration ToSeconds Sprintf_6f in
  writeSegments children last
  = writeSegments (ItemClip <$> itemClips children) last.
Proof.
  intros ws. unfold ws. revert last.
  induction children as [|[c|] children IH]; intros last; [done| |].
  - change (itemClips (ItemClip c :: children)) with (c :: itemClips children).
    rewrite fmap_cons. simpl.
    destruct (mapTag _ _ _ _) as [tag last']. by rewrite IH.
  - change (itemClips (ItemOther :: children)) with (itemClips children).
    simpl. apply IH.
Qed.

Section RoundTrip.

Variable ParseFloat : string -> float.

Lemma segments_no_map_no_byterange st es c :
  c ∈ segments ParseFloat st es ->
  clipHLS c "map" = None /\ clipHLS c "byterange" = None.
Proof.
  intros (i & Hi)%list_elem_of_lookup.
  apply segments_inv in Hi as (pre & u & rest & _ & _ & _ & ->).
  unfold emitClip. by rewrite !clipHLS_createClip.
Qed.

(** X20. Decoding then encoding: [Encode] writes a timeline that [Decode]
    returned as a media playlist, and for none of its clips does it write
    an EXT-X-MAP or an EXT-X-BYTERANGE tag: the decoder keeps byteranges
    and init segments in the streaming namespace, and the encoder reads
    them from the HLS namespace.  Each clip gives its EXTINF line and its
    URI line. *)
Theorem Encode_of_Decode (r : Bufio.Reader) (tl : Timeline) :
  Decode ParseFloat r = Ok tl ->
  exists track,
    Tracks tl = [ChildTrack track]
    /\ Encode rangeOrder float64ToInt Clip_Duration ToSeconds Sprintf_6f
         Sprint_other tl
       = inr (encodeMediaPlaylist rangeOrder float64ToInt Clip_Duration
                ToSeconds Sprintf_6f track)
    /\ forall c, c ∈ clipsOf tl ->
         (forall last, mapTag rangeOrder float64ToInt
                         (getHLSMetadata (clip_metadata c)) last
                       = (EmptyString, last))
         /\ exists title,
              segmentLines float64ToInt Clip_Duration ToSeconds Sprintf_6f c
              = "#EXTINF:" +:+ Sprintf_6f
                  (ToSeconds (default (mkRationalTime 0%float 1%float)
                                (Clip_Duration c)))
                +:+ "," +:+ title +:+ newline
                +:+ getTargetURL c +:+ newline
              /\ (title = EmptyString \/ title = clip_name c).
Proof.
  intros Hd%Decode_Ok_decodeMediaPlaylist.
  pose proof (decodeMediaPlaylist_clips _ _ _ Hd) as (Hclips & track & Ht & _).
  exists track. split; [done|]. split.
  - apply Encode_one_track; [done|]. unfold decodeMediaPlaylist in Hd.
    by injection Hd as <-.
  - intros c Hc. rewrite Hclips in Hc.
    apply segments_no_map_no_byterange in Hc as [Hmap Hbr].
    unfold clipHLS in Hmap, Hbr. split.
    + intros last. unfold mapTag. by rewrite Hmap.
    + unfold segmentLines. rewrite Hbr.
      destruct (Clip_Duration c); simpl;
        (destruct (clip_name c) as [|x n] eqn:Hn;
         [exists EmptyString|
          destruct (String.eqb _ (getTargetURL c));
          [exists EmptyString|exists (String x n)]]);
        (split; [by rewrite ?app_assoc|auto]).
Qed.

End RoundTrip.

End MediaEncoderProperties.

(** *** Examples of the properties of [Encode] *)

Lemma Encode_cases_witness :
  Encode sampleOrder sampleToInt sampleDuration sampleToSeconds sampleSprintf
    sampleSprint
    {| timeline_name := "empty"; Tracks := []; timeline_metadata := ∅ |}
  = inl ErrNoTracks.
Proof.
  apply (proj2 (proj1 (Encode_cases sampleOrder sampleSprint sampleToInt
                         sampleDuration sampleToSeconds sampleSprintf _))).
  reflexivity.
Defined.

Lemma Encode_of_Decode_witness :
  exists tl track,
    Decode sampleParseFloat (NewReader mediaSample) = Ok tl
    /\ Tracks tl = [ChildTrack track]
    /\ Encode sampleOrder sampleToInt sampleDuration sampleToSeconds
         sampleSprintf sampleSprint tl
       = inr (encodeMediaPlaylist sampleOrder sampleToInt sampleDuration
                sampleToSeconds sampleSprintf track).
Proof.
  destruct (Encode_of_Decode sampleOrder sampleSprint sampleToInt sampleDuration
              sampleToSeconds sampleSprintf sampleParseFloat (NewReader mediaSample) _ eq_refl)
    as (track & H1 & H2 & _).
  eexists _, track. split; [reflexivity|]. split; [exact H1|exact H2].
Defined.
